(** * lndclient: the chain notifier client (chainnotifier_client.go)

    A shallow embedding of the three registration operations
    [RegisterSpendNtfn], [RegisterConfirmationsNtfn] and
    [RegisterBlockEpochNtfn], of the goroutine each one starts, and of the
    wait group behind [WaitForFinished].

    A server stream is the list of results its successive [Recv] calls
    return.  A goroutine is the list of actions it performs on such a
    stream (receives, channel writes, the deferred [wg.Done]) together with
    the state it ends in.  The select statement of the block epoch
    goroutine is given, at each execution, which of its two cases can
    proceed; when both can, Go takes either one. *)

From Stdlib Require Import String ZArith List Bool Lia Arith.
From Stdlib Require Import Strings.Byte.
Import ListNotations.

Open Scope Z_scope.

(** ** Machine integers *)

Module Int32.

Definition modulus : Z := 2 ^ 32.
Definition half_modulus : Z := 2 ^ 31.

Definition is_uint32 (z : Z) : Prop := 0 <= z < modulus.
Definition is_int32 (z : Z) : Prop := - half_modulus <= z < half_modulus.

(** Go's conversion [uint32(x)] of an [int32] value. *)
Definition uint32_of_int32 (x : Z) : Z := x mod modulus.

(** Go's conversion [int32(x)] of a [uint32] value. *)
Definition int32_of_uint32 (x : Z) : Z :=
  if x <? half_modulus then x else x - modulus.

End Int32.

(** ** Errors and results *)

(** The [error] values that travel through the client.  [ErrStream] is
    whatever the transport hands back from [Recv] or from opening the
    stream, [ErrHashLength] is the error of [chainhash.NewHash],
    [ErrDecodeTx] the one of [decodeTx], and [Errorf] a [fmt.Errorf]. *)
Inductive error : Type :=
| ErrStream (msg : string)
| ErrHashLength (len : nat)
| ErrDecodeTx (msg : string)
| Errorf (msg : string).

Inductive result (A : Type) : Type :=
| Ok (a : A)
| Err (e : error).
Arguments Ok {A} a.
Arguments Err {A} e.

Definition bytes : Type := list byte.

(** ** chainhash *)

Module chainhash.

Definition HashSize : nat := 32.

(** [chainhash.Hash] is [[32]byte]; the bytes are kept as a list. *)
Definition Hash : Type := bytes.

(** Modelled from the spec: [chainhash.NewHash] belongs to btcd and is
    not in the source tree.  It fails on "a hash that is not exactly 32
    bytes" and copies the bytes otherwise. *)
Definition NewHash (newHash : bytes) : result Hash :=
  if Nat.eqb (length newHash) HashSize
  then Ok newHash
  else Err (ErrHashLength (length newHash)).

End chainhash.

(** ** Wire messages (chainrpc) *)

Module chainrpc.

Record Outpoint : Type := {
  Hash : bytes;
  Index : Z
}.

Record SpendDetails : Type := {
  SpendingOutpoint : option Outpoint;
  RawSpendingTx : bytes;
  SpendingTxHash : bytes;
  SpendingInputIndex : Z;
  SpendingHeight : Z
}.

(** The [Event] oneof of a [chainrpc.SpendEvent].  The payload of
    [SpendEvent_Spend] is a pointer, which may be nil. *)
Inductive SpendEvent : Type :=
| SpendEvent_Spend (Spend : option SpendDetails)
| SpendEvent_Reorg
| SpendEvent_nil
| SpendEvent_other.

Record ConfDetails : Type := {
  RawTx : bytes;
  BlockHash : bytes;
  BlockHeight : Z;
  TxIndex : Z
}.

(** The [Event] oneof of a [chainrpc.ConfEvent]. *)
Inductive ConfEvent : Type :=
| ConfEvent_Conf (Conf : option ConfDetails)
| ConfEvent_Reorg
| ConfEvent_nil
| ConfEvent_other.

Record BlockEpoch : Type := {
  Height : Z
}.

Record SpendRequest : Type := {
  sr_HeightHint : Z;
  sr_Outpoint : option Outpoint;
  sr_Script : bytes
}.

Record ConfRequest : Type := {
  cr_Script : bytes;
  cr_NumConfs : Z;
  cr_HeightHint : Z;
  cr_Txid : bytes
}.

End chainrpc.

(** A server stream: what each successive [Recv] returns.  When the list
    is used up the next [Recv] has not returned yet. *)
Definition stream (E : Type) : Type := list (result E).

(** ** Goroutines *)

(** How far a goroutine got on the stream it was given. *)
Inductive status : Type :=
| Exited          (* returned from the function literal *)
| Panicked        (* a nil pointer was dereferenced *)
| BlockedRecv     (* waiting in Recv *)
| BlockedSelect.  (* waiting in the select, no case ready *)

Definition exits (st : status) : bool :=
  match st with
  | Exited | Panicked => true
  | BlockedRecv | BlockedSelect => false
  end.

(** ** The select statement of the block epoch goroutine *)

(** What the goroutine finds when its select fires: whether a receiver is
    ready on the unbuffered output channel, whether [ctx.Done()] is closed,
    and, when both cases can proceed, which one the runtime's
    pseudo-random choice takes. *)
Record select_env : Type := {
  receiver_ready : bool;
  ctx_done : bool;
  pick_send : bool
}.

Inductive select_result : Type :=
| SelSend
| SelCancel
| SelBlock.

Definition go_select (s : select_env) : select_result :=
  match receiver_ready s, ctx_done s with
  | true, false => SelSend
  | false, true => SelCancel
  | true, true => if pick_send s then SelSend else SelCancel
  | false, false => SelBlock
  end.

(** ** Domain values (wire, chainntnfs) *)

Module wire.

Record OutPoint : Type := {
  Hash : chainhash.Hash;
  Index : Z
}.

End wire.

Module chainntnfs.

Record SpendDetail (MsgTx : Type) : Type := {
  SpentOutPoint : wire.OutPoint;
  SpenderTxHash : chainhash.Hash;
  SpenderInputIndex : Z;
  SpendingTx : MsgTx;
  SpendingHeight : Z
}.
Arguments SpentOutPoint {MsgTx} _.
Arguments SpenderTxHash {MsgTx} _.
Arguments SpenderInputIndex {MsgTx} _.
Arguments SpendingTx {MsgTx} _.
Arguments SpendingHeight {MsgTx} _.

Record TxConfirmation (MsgTx : Type) : Type := {
  BlockHeight : Z;
  BlockHash : chainhash.Hash;
  Tx : MsgTx;
  TxIndex : Z
}.
Arguments BlockHeight {MsgTx} _.
Arguments BlockHash {MsgTx} _.
Arguments Tx {MsgTx} _.
Arguments TxIndex {MsgTx} _.

End chainntnfs.

(** A function that either returns or dereferences a nil pointer. *)
Inductive ret (A : Type) : Type :=
| Return (a : A)
| Panic.
Arguments Return {A} a.
Arguments Panic {A}.

(** ** Sample data for the concrete scenarios *)

Module Sample.

(** A stand-in for [decodeTx]: it rejects the empty byte string, as a
    reader at end of input does, and keeps the bytes of anything
    else. *)
Definition decodeTx (rawTx : bytes) : result bytes :=
  match rawTx with
  | [] => Err (ErrDecodeTx "EOF")
  | _ => Ok rawTx
  end.

Definition zero_hash : bytes := repeat x00 32.
Definition hash_11 : bytes := repeat x11 32.
Definition raw_tx : bytes := [x01; x00; x00; x00; x00; x00; x00; x00; x00; x00].

(** A caller that takes every value offered and never cancels. *)
Definition receiving (_ : nat) : select_env :=
  {| receiver_ready := true; ctx_done := false; pick_send := false |}.

(** A cancelled caller that is no longer receiving. *)
Definition cancelled (_ : nat) : select_env :=
  {| receiver_ready := false; ctx_done := true; pick_send := false |}.

(** A caller that takes the first [k] values and is then cancelled and
    gone. *)
Definition cancelled_after (k : nat) (n : nat) : select_env :=
  if Nat.ltb n k then receiving n else cancelled n.

(** A cancelled caller that is still receiving, the runtime choosing
    the send. *)
Definition cancelled_receiving (_ : nat) : select_env :=
  {| receiver_ready := true; ctx_done := true; pick_send := true |}.

Definition spend_details : chainrpc.SpendDetails :=
  {| chainrpc.SpendingOutpoint :=
       Some {| chainrpc.Hash := zero_hash; chainrpc.Index := 0 |};
     chainrpc.RawSpendingTx := raw_tx;
     chainrpc.SpendingTxHash := hash_11;
     chainrpc.SpendingInputIndex := 2;
     chainrpc.SpendingHeight := 700000 |}.

Definition conf_details : chainrpc.ConfDetails :=
  {| chainrpc.RawTx := raw_tx;
     chainrpc.BlockHash := hash_11;
     chainrpc.BlockHeight := 700000;
     chainrpc.TxIndex := 3 |}.

Definition epochs_100_102 : stream chainrpc.BlockEpoch :=
  [Ok {| chainrpc.Height := 100 |};
   Ok {| chainrpc.Height := 101 |};
   Ok {| chainrpc.Height := 102 |}].

End Sample.

Section Client.

(** [wire.MsgTx] and the repository's [decodeTx] helper are outside the
    source file; the client only calls the decoder. *)
Variable MsgTx : Type.
Variable decodeTx : bytes -> result MsgTx.

(** What a subscription's output channel carries. *)
Inductive value : Type :=
| VSpend (d : chainntnfs.SpendDetail MsgTx)
| VConf (c : chainntnfs.TxConfirmation MsgTx)
| VEpoch (height : Z).

(** What a goroutine does, in order.  A write on a channel with room in
    its buffer returns at once: the error channels and the output
    channels of the spend and confirmation subscriptions have a buffer
    of one and, as shown below, get at most one write, so these writes
    never wait.  Only the write on the unbuffered block epoch channel can
    wait, inside the select. *)
Inductive action : Type :=
| ARecv                   (* a call of Recv that returned *)
| ASend (v : value)       (* a write on the output channel *)
| ASendErr (e : error)    (* a write on the error channel *)
| AWgDone.                (* the deferred s.wg.Done() *)

Definition run : Type := (list action * status)%type.

Definition prefix (a : action) (r : run) : run := (a :: fst r, snd r).

(** [defer s.wg.Done()]: runs when the function literal returns or
    panics, and not while it is blocked. *)
Definition deferred_Done (r : run) : run :=
  if exits (snd r) then (fst r ++ [AWgDone], snd r) else r.

(** *** RegisterSpendNtfn *)

(** The closure [processSpendDetail]: the write on [spendChan] it makes,
    if any, and the error it returns. *)
Definition processSpendDetail (d : option chainrpc.SpendDetails)
  : list action * ret (option error) :=
  match d with
  | None => ([], Panic)
  | Some d =>
    match chainrpc.SpendingOutpoint d with
    | None => ([], Panic)
    | Some spendingOutpoint =>
      match chainhash.NewHash (chainrpc.Hash spendingOutpoint) with
      | Err e => ([], Return (Some e))
      | Ok outpointHash =>
        match chainhash.NewHash (chainrpc.SpendingTxHash d) with
        | Err e => ([], Return (Some e))
        | Ok txHash =>
          match decodeTx (chainrpc.RawSpendingTx d) with
          | Err e => ([], Return (Some e))
          | Ok tx =>
            ([ASend (VSpend {|
                chainntnfs.SpentOutPoint := {|
                  wire.Hash := outpointHash;
                  wire.Index := chainrpc.Index spendingOutpoint
                |};
                chainntnfs.SpenderTxHash := txHash;
                chainntnfs.SpenderInputIndex := chainrpc.SpendingInputIndex d;
                chainntnfs.SpendingTx := tx;
                chainntnfs.SpendingHeight :=
                  Int32.int32_of_uint32 (chainrpc.SpendingHeight d)
              |})],
             Return None)
          end
        end
      end
    end
  end.

(** The [for] loop of the spend goroutine. *)
Fixpoint spend_loop (resp : stream chainrpc.SpendEvent) : run :=
  match resp with
  | [] => ([], BlockedRecv)
  | r :: resp' =>
    prefix ARecv
      match r with
      | Err e => ([ASendErr e], Exited)
      | Ok (chainrpc.SpendEvent_Spend c) =>
        match processSpendDetail c with
        | (sent, Return (Some e)) => (sent ++ [ASendErr e], Exited)
        | (sent, Return None) => (sent, Exited)
        | (sent, Panic) => (sent, Panicked)
        end
      | Ok _ => spend_loop resp'
      end
  end.

Definition spend_worker (resp : stream chainrpc.SpendEvent) : run :=
  deferred_Done (spend_loop resp).

(** *** RegisterConfirmationsNtfn *)

Fixpoint conf_loop (confStream : stream chainrpc.ConfEvent) : run :=
  match confStream with
  | [] => ([], BlockedRecv)
  | r :: confStream' =>
    prefix ARecv
      match r with
      | Err e => ([ASendErr e], Exited)
      | Ok (chainrpc.ConfEvent_Conf None) => ([], Panicked)
      | Ok (chainrpc.ConfEvent_Conf (Some c)) =>
        match decodeTx (chainrpc.RawTx c) with
        | Err e => ([ASendErr e], Exited)
        | Ok tx =>
          match chainhash.NewHash (chainrpc.BlockHash c) with
          | Err e => ([ASendErr e], Exited)
          | Ok blockHash =>
            ([ASend (VConf {|
                chainntnfs.BlockHeight := chainrpc.BlockHeight c;
                chainntnfs.BlockHash := blockHash;
                chainntnfs.Tx := tx;
                chainntnfs.TxIndex := chainrpc.TxIndex c
              |})],
             Exited)
          end
        end
      | Ok chainrpc.ConfEvent_Reorg => conf_loop confStream'
      | Ok chainrpc.ConfEvent_nil =>
        ([ASendErr (Errorf "conf event empty")], Exited)
      | Ok chainrpc.ConfEvent_other =>
        ([ASendErr (Errorf "conf event has unexpected type")], Exited)
      end
  end.

Definition conf_worker (confStream : stream chainrpc.ConfEvent) : run :=
  deferred_Done (conf_loop confStream).

(** *** RegisterBlockEpochNtfn *)

(** [ctx n] is what the [n]-th execution of the select statement finds. *)
Fixpoint epoch_loop (ctx : nat -> select_env) (n : nat)
    (blockEpochClient : stream chainrpc.BlockEpoch) : run :=
  match blockEpochClient with
  | [] => ([], BlockedRecv)
  | r :: blockEpochClient' =>
    prefix ARecv
      match r with
      | Err e => ([ASendErr e], Exited)
      | Ok epoch =>
        match go_select (ctx n) with
        | SelSend =>
          prefix (ASend (VEpoch (Int32.int32_of_uint32 (chainrpc.Height epoch))))
                 (epoch_loop ctx (S n) blockEpochClient')
        | SelCancel => ([], Exited)
        | SelBlock => ([], BlockedSelect)
        end
      end
  end.

Definition epoch_worker (ctx : nat -> select_env)
    (blockEpochClient : stream chainrpc.BlockEpoch) : run :=
  deferred_Done (epoch_loop ctx 0 blockEpochClient).

(** *** Reading a run *)

Definition sent (t : list action) : list value :=
  flat_map (fun a => match a with ASend v => [v] | _ => [] end) t.

Definition errors (t : list action) : list error :=
  flat_map (fun a => match a with ASendErr e => [e] | _ => [] end) t.

Definition dones (t : list action) : nat :=
  length (filter (fun a => match a with AWgDone => true | _ => false end) t).

(** ** The manager *)

(** A channel made by [make]: its identity and its buffer size.  A nil
    channel is [None]. *)
Record chan : Type := {
  chan_id : nat;
  chan_cap : nat
}.

(** A started goroutine: the actions it has still to perform and the
    state it ends in once they are performed. *)
Record goroutine : Type := {
  todo : list action;
  fin : status
}.

(** A goroutine as started by [go]. *)
Definition started (r : run) : goroutine :=
  {| todo := fst r; fin := snd r |}.

(** The [wg] field of the [chainNotifierClient] struct, together with
    what the runtime holds for it: the goroutines started so far and the
    allocator of channels. *)
Record world : Type := {
  wg : Z;
  goroutines : list goroutine;
  next_chan : nat
}.

Definition make_chan (cap : nat) (w : world) : chan * world :=
  ({| chan_id := next_chan w; chan_cap := cap |},
   {| wg := wg w; goroutines := goroutines w; next_chan := S (next_chan w) |}).

Definition wg_Add (delta : Z) (w : world) : world :=
  {| wg := wg w + delta; goroutines := goroutines w; next_chan := next_chan w |}.

(** The [go] statement. *)
Definition go (r : run) (w : world) : world :=
  {| wg := wg w;
     goroutines := goroutines w ++ [started r];
     next_chan := next_chan w |}.

(** The stub [chainrpc.ChainNotifierClient]: opening a stream fails or
    gives the stream. *)
Record rpc_client : Type := {
  rpc_RegisterSpendNtfn :
    chainrpc.SpendRequest -> result (stream chainrpc.SpendEvent);
  rpc_RegisterConfirmationsNtfn :
    chainrpc.ConfRequest -> result (stream chainrpc.ConfEvent);
  rpc_RegisterBlockEpochNtfn :
    result (stream chainrpc.BlockEpoch)
}.

(** The three values a registration returns. *)
Record registration : Type := {
  out_chan : option chan;
  err_chan : option chan;
  err : option error
}.

(** The request [RegisterSpendNtfn] sends. *)
Definition spend_request (outpoint : option wire.OutPoint)
    (pkScript : bytes) (heightHint : Z) : chainrpc.SpendRequest :=
  let rpcOutpoint :=
    match outpoint with
    | Some o => Some {| chainrpc.Hash := wire.Hash o;
                        chainrpc.Index := wire.Index o |}
    | None => None
    end in
  {| chainrpc.sr_HeightHint := Int32.uint32_of_int32 heightHint;
     chainrpc.sr_Outpoint := rpcOutpoint;
     chainrpc.sr_Script := pkScript |}.

(** The request [RegisterConfirmationsNtfn] sends. *)
Definition conf_request (txid : option chainhash.Hash)
    (pkScript : bytes) (numConfs heightHint : Z) : chainrpc.ConfRequest :=
  let txidSlice := match txid with Some h => h | None => [] end in
  {| chainrpc.cr_Script := pkScript;
     chainrpc.cr_NumConfs := Int32.uint32_of_int32 numConfs;
     chainrpc.cr_HeightHint := Int32.uint32_of_int32 heightHint;
     chainrpc.cr_Txid := txidSlice |}.

Definition RegisterSpendNtfn (client : rpc_client) (w : world)
    (outpoint : option wire.OutPoint) (pkScript : bytes) (heightHint : Z)
  : registration * world :=
  match rpc_RegisterSpendNtfn client
          (spend_request outpoint pkScript heightHint) with
  | Err e => ({| out_chan := None; err_chan := None; err := Some e |}, w)
  | Ok resp =>
    let (spendChan, w1) := make_chan 1 w in
    let (errChan, w2) := make_chan 1 w1 in
    let w3 := wg_Add 1 w2 in
    let w4 := go (spend_worker resp) w3 in
    ({| out_chan := Some spendChan; err_chan := Some errChan; err := None |},
     w4)
  end.

Definition RegisterConfirmationsNtfn (client : rpc_client) (w : world)
    (txid : option chainhash.Hash) (pkScript : bytes)
    (numConfs heightHint : Z)
  : registration * world :=
  match rpc_RegisterConfirmationsNtfn client
          (conf_request txid pkScript numConfs heightHint) with
  | Err e => ({| out_chan := None; err_chan := None; err := Some e |}, w)
  | Ok confStream =>
    let (confChan, w1) := make_chan 1 w in
    let (errChan, w2) := make_chan 1 w1 in
    let w3 := wg_Add 1 w2 in
    let w4 := go (conf_worker confStream) w3 in
    ({| out_chan := Some confChan; err_chan := Some errChan; err := None |},
     w4)
  end.

Definition RegisterBlockEpochNtfn (client : rpc_client) (w : world)
    (ctx : nat -> select_env)
  : registration * world :=
  match rpc_RegisterBlockEpochNtfn client with
  | Err e => ({| out_chan := None; err_chan := None; err := Some e |}, w)
  | Ok blockEpochClient =>
    let (blockErrorChan, w1) := make_chan 1 w in
    let (blockEpochChan, w2) := make_chan 0 w1 in
    let w3 := wg_Add 1 w2 in
    let w4 := go (epoch_worker ctx blockEpochClient) w3 in
    ({| out_chan := Some blockEpochChan; err_chan := Some blockErrorChan;
        err := None |},
     w4)
  end.

(** [s.wg.Wait()] returns once the counter is zero and blocks until
    then. *)
Definition WaitForFinished (w : world) : option unit :=
  if wg w =? 0 then Some tt else None.

(** *** The scheduler *)

(** The effect of an action on the shared state: only [wg.Done] has
    one. *)
Definition perform (a : action) (w : world) : world :=
  match a with
  | AWgDone => wg_Add (-1) w
  | _ => w
  end.

(** The [i]-th goroutine performs its next action. *)
Fixpoint step_nth (i : nat) (gs : list goroutine)
  : option (action * list goroutine) :=
  match gs, i with
  | [], _ => None
  | g :: gs', O =>
    match todo g with
    | a :: rest => Some (a, {| todo := rest; fin := fin g |} :: gs')
    | [] => None
    end
  | g :: gs', S i' =>
    match step_nth i' gs' with
    | Some (a, gs'') => Some (a, g :: gs'')
    | None => None
    end
  end.

Definition schedule (i : nat) (w : world) : option world :=
  match step_nth i (goroutines w) with
  | Some (a, gs) =>
    Some (perform a {| wg := wg w; goroutines := gs;
                       next_chan := next_chan w |})
  | None => None
  end.

Definition newChainNotifierClient : world :=
  {| wg := 0; goroutines := []; next_chan := 0 |}.

(** The states the client can be in: registrations in any order and
    with any arguments, interleaved with the goroutines' actions. *)
Inductive reachable : world -> Prop :=
| reach_new : reachable newChainNotifierClient
| reach_spend client w outpoint pkScript heightHint :
    reachable w ->
    reachable (snd (RegisterSpendNtfn client w outpoint pkScript heightHint))
| reach_conf client w txid pkScript numConfs heightHint :
    reachable w ->
    reachable (snd (RegisterConfirmationsNtfn client w txid pkScript
                                              numConfs heightHint))
| reach_epoch client w ctx :
    reachable w ->
    reachable (snd (RegisterBlockEpochNtfn client w ctx))
| reach_schedule i w w' :
    reachable w ->
    schedule i w = Some w' ->
    reachable w'.

(** A goroutine has exited when it has returned (or panicked) and all
    its actions, the deferred one included, are performed. *)
Definition finished (g : goroutine) : bool :=
  exits (fin g) && match todo g with [] => true | _ => false end.

Definition live (gs : list goroutine) : nat :=
  length (filter (fun g => negb (finished g)) gs).

(** *** Reading a stream *)

Definition is_spend (ev : chainrpc.SpendEvent) : bool :=
  match ev with
  | chainrpc.SpendEvent_Spend _ => true
  | _ => false
  end.

(** One turn of the block epoch loop in which the select sends. *)
Definition deliver (epoch : chainrpc.BlockEpoch) : list action :=
  [ARecv; ASend (VEpoch (Int32.int32_of_uint32 (chainrpc.Height epoch)))].

(** The heights a goroutine that is never held up receives: the ones
    before the first stream error. *)
Fixpoint received_heights (s : stream chainrpc.BlockEpoch) : list Z :=
  match s with
  | Ok epoch :: s' => chainrpc.Height epoch :: received_heights s'
  | _ => []
  end.

Fixpoint stream_error (E : Type) (s : stream E) : list error :=
  match s with
  | [] => []
  | Ok _ :: s' => stream_error E s'
  | Err e :: _ => [e]
  end.

(** An error written by a run is its last action, and the run is a
    return. *)
Definition err_final (r : run) : Prop :=
  forall pre e post,
    fst r = pre ++ ASendErr e :: post -> post = [] /\ snd r = Exited.

(** The deferred Done of a goroutine is still to come exactly when the
    goroutine exits and has not performed it yet, and it comes last. *)
Definition counted (g : goroutine) : Prop :=
  if exits (fin g)
  then todo g = []
       \/ exists body, todo g = body ++ [AWgDone] /\ dones body = 0%nat
  else dones (todo g) = 0%nat.

(** ** More ways to read a run and to drive the goroutines *)

Definition receives (t : list action) : nat :=
  length (filter (fun a => match a with ARecv => true | _ => false end) t).

(** The run [r'] on a longer stream continues the run [r] on a shorter
    one: it is the same run unless [r] was waiting in Recv, and then it
    begins with the actions of [r]. *)
Definition continues (r r' : run) : Prop :=
  (snd r <> BlockedRecv /\ r' = r)
  \/ (snd r = BlockedRecv /\ exists more, fst r' = fst r ++ more).

(** A schedule names the goroutine that moves at each step. *)
Fixpoint run_schedule (order : list nat) (w : world) : option world :=
  match order with
  | [] => Some w
  | i :: order' =>
    match schedule i w with
    | Some w' => run_schedule order' w'
    | None => None
    end
  end.

(** The actions the started goroutines have still to perform. *)
Definition pending (gs : list goroutine) : nat :=
  fold_right (fun g n => (length (todo g) + n)%nat) 0%nat gs.

(** ** Basic facts about runs *)

Lemma deferred_Done_prefix (a : action) (r : run) :
  deferred_Done (prefix a r) = prefix a (deferred_Done r).
Proof.
  unfold deferred_Done, prefix; simpl.
  destruct (exits (snd r)); reflexivity.
Qed.




(** Events the loops step over. *)

Lemma spend_loop_skip (ev : chainrpc.SpendEvent) (resp : stream chainrpc.SpendEvent) :
  is_spend ev = false ->
  spend_loop (Ok ev :: resp) = prefix ARecv (spend_loop resp).
Proof. destruct ev; simpl; intros H; congruence || reflexivity. Qed.

Lemma spend_worker_skip (ev : chainrpc.SpendEvent) (resp : stream chainrpc.SpendEvent) :
  is_spend ev = false ->
  spend_worker (Ok ev :: resp) = prefix ARecv (spend_worker resp).
Proof.
  intros H. unfold spend_worker.
  rewrite (spend_loop_skip _ _ H). apply deferred_Done_prefix.
Qed.

Lemma spend_worker_skips (skipped : list chainrpc.SpendEvent)
    (resp : stream chainrpc.SpendEvent) :
  Forall (fun ev => is_spend ev = false) skipped ->
  spend_worker (map Ok skipped ++ resp)
  = (repeat ARecv (length skipped) ++ fst (spend_worker resp),
     snd (spend_worker resp)).
Proof.
  induction 1 as [|ev skipped Hev _ IH]; simpl.
  - now destruct (spend_worker resp).
  - rewrite (spend_worker_skip _ _ Hev), IH. reflexivity.
Qed.

Lemma conf_worker_reorg (confStream : stream chainrpc.ConfEvent) :
  conf_worker (Ok chainrpc.ConfEvent_Reorg :: confStream)
  = prefix ARecv (conf_worker confStream).
Proof. unfold conf_worker; simpl. apply deferred_Done_prefix. Qed.

Lemma conf_worker_reorgs (n : nat) (confStream : stream chainrpc.ConfEvent) :
  conf_worker (repeat (Ok chainrpc.ConfEvent_Reorg) n ++ confStream)
  = (repeat ARecv n ++ fst (conf_worker confStream),
     snd (conf_worker confStream)).
Proof.
  induction n as [|n IH]; simpl.
  - now destruct (conf_worker confStream).
  - rewrite conf_worker_reorg, IH. reflexivity.
Qed.

Lemma conf_worker_reorgs_only (n : nat) :
  conf_worker (repeat (Ok chainrpc.ConfEvent_Reorg) n)
  = (repeat ARecv n, BlockedRecv).
Proof.
  rewrite <- (app_nil_r (repeat _ n)), conf_worker_reorgs.
  simpl. now rewrite app_nil_r.
Qed.

Lemma spend_worker_skipped_only (skipped : list chainrpc.SpendEvent) :
  Forall (fun ev => is_spend ev = false) skipped ->
  spend_worker (map Ok skipped) = (repeat ARecv (length skipped), BlockedRecv).
Proof.
  intros H. rewrite <- (app_nil_r (map _ skipped)), spend_worker_skips by easy.
  simpl. now rewrite app_nil_r.
Qed.

Lemma sent_app (t1 t2 : list action) : sent (t1 ++ t2) = sent t1 ++ sent t2.
Proof. apply flat_map_app. Qed.

Lemma errors_app (t1 t2 : list action) :
  errors (t1 ++ t2) = errors t1 ++ errors t2.
Proof. apply flat_map_app. Qed.



(** ** The confirmation goroutine *)

(** C1 (amended): after any number of reorg events, which are stepped
    over with nothing written, the next event decides the run.  A
    confirmed event whose raw transaction and block hash both decode
    makes the goroutine write exactly one TxConfirmation, holding the
    decoded transaction, the decoded block hash, the block height and
    the transaction index, and return; when the transaction or the
    block hash does not decode it writes that one error instead and
    returns.  A nil event gives the one error "conf event empty", any
    other variant the one error "conf event has unexpected type", and
    both end the goroutine.  So a reorg followed by a decodable
    confirmed event gives one TxConfirmation and no error, and a lone
    nil event one error and no TxConfirmation. *)
Theorem conf_worker_classifies (n : nat) (rest : stream chainrpc.ConfEvent) :
  let reorgs := repeat (Ok chainrpc.ConfEvent_Reorg) n in
  (forall c tx blockHash,
      decodeTx (chainrpc.RawTx c) = Ok tx ->
      chainhash.NewHash (chainrpc.BlockHash c) = Ok blockHash ->
      conf_worker (reorgs ++ Ok (chainrpc.ConfEvent_Conf (Some c)) :: rest)
      = (repeat ARecv n ++
           [ARecv;
            ASend (VConf {| chainntnfs.BlockHeight := chainrpc.BlockHeight c;
                            chainntnfs.BlockHash := blockHash;
                            chainntnfs.Tx := tx;
                            chainntnfs.TxIndex := chainrpc.TxIndex c |});
            AWgDone],
         Exited))
  /\ (forall c e,
      decodeTx (chainrpc.RawTx c) = Err e ->
      conf_worker (reorgs ++ Ok (chainrpc.ConfEvent_Conf (Some c)) :: rest)
      = (repeat ARecv n ++ [ARecv; ASendErr e; AWgDone], Exited))
  /\ (forall c tx e,
      decodeTx (chainrpc.RawTx c) = Ok tx ->
      chainhash.NewHash (chainrpc.BlockHash c) = Err e ->
      conf_worker (reorgs ++ Ok (chainrpc.ConfEvent_Conf (Some c)) :: rest)
      = (repeat ARecv n ++ [ARecv; ASendErr e; AWgDone], Exited))
  /\ conf_worker (reorgs ++ Ok chainrpc.ConfEvent_nil :: rest)
     = (repeat ARecv n ++
          [ARecv; ASendErr (Errorf "conf event empty"); AWgDone],
        Exited)
  /\ conf_worker (reorgs ++ Ok chainrpc.ConfEvent_other :: rest)
     = (repeat ARecv n ++
          [ARecv; ASendErr (Errorf "conf event has unexpected type"); AWgDone],
        Exited)
  /\ conf_worker reorgs = (repeat ARecv n, BlockedRecv)
  /\ (forall c tx blockHash,
      decodeTx (chainrpc.RawTx c) = Ok tx ->
      chainhash.NewHash (chainrpc.BlockHash c) = Ok blockHash ->
      let r := conf_worker [Ok chainrpc.ConfEvent_Reorg;
                            Ok (chainrpc.ConfEvent_Conf (Some c))] in
      length (sent (fst r)) = 1%nat /\ errors (fst r) = [] /\ snd r = Exited)
  /\ (let r := conf_worker [Ok chainrpc.ConfEvent_nil] in
      sent (fst r) = [] /\ length (errors (fst r)) = 1%nat /\ snd r = Exited).
Proof.
  intros reorgs. subst reorgs.
  repeat split; intros;
    try (rewrite conf_worker_reorgs; unfold conf_worker; simpl;
         repeat match goal with H : _ = _ |- _ => rewrite H end;
         reflexivity);
    try apply conf_worker_reorgs_only;
    try (unfold conf_worker; simpl;
         repeat match goal with H : _ = _ |- _ => rewrite H end;
         reflexivity).
Qed.

(** ** The spend goroutine *)

(** C2 (amended): the goroutine steps over every event that is not a
    spend event, writing nothing.  On the first spend event, when its
    outpoint is there and the outpoint hash, the spending transaction
    hash and the raw transaction all decode, it writes exactly one
    SpendDetail, holding the spent outpoint, the spending transaction
    hash, the spending input index, the decoded transaction and the
    spending height, and returns; when one of the three does not decode
    it writes that one error instead and returns. *)
Theorem spend_worker_first_spend (skipped : list chainrpc.SpendEvent)
    (d : chainrpc.SpendDetails) (op : chainrpc.Outpoint)
    (rest : stream chainrpc.SpendEvent) :
  Forall (fun ev => is_spend ev = false) skipped ->
  chainrpc.SpendingOutpoint d = Some op ->
  let resp := map Ok skipped ++ Ok (chainrpc.SpendEvent_Spend (Some d)) :: rest in
  let skips := repeat ARecv (length skipped) in
  (forall outpointHash txHash tx,
      chainhash.NewHash (chainrpc.Hash op) = Ok outpointHash ->
      chainhash.NewHash (chainrpc.SpendingTxHash d) = Ok txHash ->
      decodeTx (chainrpc.RawSpendingTx d) = Ok tx ->
      spend_worker resp
      = (skips ++
           [ARecv;
            ASend (VSpend {|
              chainntnfs.SpentOutPoint :=
                {| wire.Hash := outpointHash;
                   wire.Index := chainrpc.Index op |};
              chainntnfs.SpenderTxHash := txHash;
              chainntnfs.SpenderInputIndex := chainrpc.SpendingInputIndex d;
              chainntnfs.SpendingTx := tx;
              chainntnfs.SpendingHeight :=
                Int32.int32_of_uint32 (chainrpc.SpendingHeight d) |});
            AWgDone],
         Exited))
  /\ (forall e,
      chainhash.NewHash (chainrpc.Hash op) = Err e ->
      spend_worker resp = (skips ++ [ARecv; ASendErr e; AWgDone], Exited))
  /\ (forall outpointHash e,
      chainhash.NewHash (chainrpc.Hash op) = Ok outpointHash ->
      chainhash.NewHash (chainrpc.SpendingTxHash d) = Err e ->
      spend_worker resp = (skips ++ [ARecv; ASendErr e; AWgDone], Exited))
  /\ (forall outpointHash txHash e,
      chainhash.NewHash (chainrpc.Hash op) = Ok outpointHash ->
      chainhash.NewHash (chainrpc.SpendingTxHash d) = Ok txHash ->
      decodeTx (chainrpc.RawSpendingTx d) = Err e ->
      spend_worker resp = (skips ++ [ARecv; ASendErr e; AWgDone], Exited))
  /\ spend_worker (map Ok skipped) = (skips, BlockedRecv).
Proof.
  intros Hskip Hop resp skips. subst resp skips.
  repeat split; intros;
    try (rewrite spend_worker_skips by assumption;
         unfold spend_worker; simpl; rewrite Hop;
         repeat match goal with H : _ = _ |- _ => rewrite H end;
         reflexivity).
  now apply spend_worker_skipped_only.
Qed.

Lemma processSpendDetail_cases (d : option chainrpc.SpendDetails) :
  processSpendDetail d = ([], Panic)
  \/ (exists e, processSpendDetail d = ([], Return (Some e)))
  \/ (exists v, processSpendDetail d = ([ASend v], Return None)).
Proof.
  unfold processSpendDetail.
  destruct d as [d|]; [|now left].
  destruct (chainrpc.SpendingOutpoint d) as [op|]; [|now left].
  destruct (chainhash.NewHash (chainrpc.Hash op)); [|right; left; eauto].
  destruct (chainhash.NewHash (chainrpc.SpendingTxHash d)); [|right; left; eauto].
  destruct (decodeTx (chainrpc.RawSpendingTx d)); [|right; left; eauto].
  right; right; eauto.
Qed.

(** C9: a spend event whose SpendingOutpoint is nil makes
    processSpendDetail dereference a nil pointer: no error is returned,
    nothing is written on the error channel or on the output channel,
    and the goroutine panics.  With the outpoint there,
    processSpendDetail returns, with an error or with nil. *)
Theorem processSpendDetail_nil_outpoint (d : chainrpc.SpendDetails)
    (rest : stream chainrpc.SpendEvent) :
  (chainrpc.SpendingOutpoint d = None ->
     processSpendDetail (Some d) = ([], Panic)
     /\ (let r := spend_worker (Ok (chainrpc.SpendEvent_Spend (Some d)) :: rest) in
         r = ([ARecv; AWgDone], Panicked)
         /\ errors (fst r) = [] /\ sent (fst r) = []))
  /\ (forall op, chainrpc.SpendingOutpoint d = Some op ->
        exists written returned,
          processSpendDetail (Some d) = (written, Return returned)).
Proof.
  split.
  - intros H. unfold spend_worker; simpl. rewrite H. simpl. auto.
  - intros op H. unfold processSpendDetail. rewrite H.
    destruct (chainhash.NewHash (chainrpc.Hash op)); [|eauto].
    destruct (chainhash.NewHash (chainrpc.SpendingTxHash d)); [|eauto].
    destruct (decodeTx (chainrpc.RawSpendingTx d)); eauto.
Qed.

(** C8 (amended): a confirmation goroutine answers an event whose
    variant is unset with the error "conf event empty" and an event of
    an unexpected variant with the error "conf event has unexpected
    type", two different errors, and returns.  A spend goroutine steps
    over an event whose variant is unset or is not a spend: it writes
    nothing and receives the next event. *)
Theorem unexpected_variants (confStream : stream chainrpc.ConfEvent)
    (resp : stream chainrpc.SpendEvent) :
  conf_worker (Ok chainrpc.ConfEvent_nil :: confStream)
  = ([ARecv; ASendErr (Errorf "conf event empty"); AWgDone], Exited)
  /\ conf_worker (Ok chainrpc.ConfEvent_other :: confStream)
     = ([ARecv; ASendErr (Errorf "conf event has unexpected type"); AWgDone],
        Exited)
  /\ Errorf "conf event empty" <> Errorf "conf event has unexpected type"
  /\ spend_worker (Ok chainrpc.SpendEvent_nil :: resp)
     = prefix ARecv (spend_worker resp)
  /\ spend_worker (Ok chainrpc.SpendEvent_other :: resp)
     = prefix ARecv (spend_worker resp)
  /\ spend_worker (Ok chainrpc.SpendEvent_Reorg :: resp)
     = prefix ARecv (spend_worker resp).
Proof.
  repeat split; try (now apply spend_worker_skip); discriminate.
Qed.

(** ** The block epoch goroutine *)

Lemma epoch_loop_sends (ctx : nat -> select_env)
    (delivered : list chainrpc.BlockEpoch) :
  forall (n : nat) (rest : stream chainrpc.BlockEpoch),
    (forall i, (i < length delivered)%nat -> go_select (ctx (n + i)%nat) = SelSend) ->
    epoch_loop ctx n (map Ok delivered ++ rest)
    = (flat_map deliver delivered
         ++ fst (epoch_loop ctx (n + length delivered) rest),
       snd (epoch_loop ctx (n + length delivered) rest)).
Proof.
  induction delivered as [|epoch delivered IH]; intros n rest H; simpl.
  - rewrite Nat.add_0_r. now destruct (epoch_loop ctx n rest).
  - pose proof (H 0%nat) as H0. rewrite Nat.add_0_r in H0.
    rewrite H0 by (simpl; lia).
    rewrite IH.
    + replace (S n + length delivered)%nat
        with (n + S (length delivered))%nat by lia.
      reflexivity.
    + intros i Hi.
      replace (S n + i)%nat with (n + S i)%nat by lia.
      apply H. simpl; lia.
Qed.

Lemma sent_deferred_Done (r : run) : sent (fst (deferred_Done r)) = sent (fst r).
Proof.
  unfold deferred_Done. destruct (exits (snd r)); simpl; auto.
  rewrite sent_app. simpl. apply app_nil_r.
Qed.

Lemma errors_deferred_Done (r : run) :
  errors (fst (deferred_Done r)) = errors (fst r).
Proof.
  unfold deferred_Done. destruct (exits (snd r)); simpl; auto.
  rewrite errors_app. simpl. apply app_nil_r.
Qed.

Lemma sent_deliver (delivered : list chainrpc.BlockEpoch) :
  sent (flat_map deliver delivered)
  = map (fun e => VEpoch (Int32.int32_of_uint32 (chainrpc.Height e))) delivered.
Proof. induction delivered; simpl; congruence. Qed.

Lemma errors_deliver (delivered : list chainrpc.BlockEpoch) :
  errors (flat_map deliver delivered) = [].
Proof. induction delivered; simpl; congruence. Qed.

Lemma go_select_cancel (s : select_env) :
  ctx_done s = true ->
  receiver_ready s = false \/ pick_send s = false ->
  go_select s = SelCancel.
Proof.
  unfold go_select. intros -> [-> | ->]; [reflexivity|].
  now destruct (receiver_ready s).
Qed.

(** C3 (amended): when a height is ready and the select takes the
    cancellation case, the value is dropped: the goroutine returns
    without writing it, writes nothing more on either channel whatever
    the stream holds next, and reports no error.  With the context
    already done the select must take that case when no receiver is
    ready on the output channel; when a receiver is ready too, the
    select may take either case. *)
Theorem epoch_worker_drops_on_cancel (ctx : nat -> select_env)
    (delivered : list chainrpc.BlockEpoch) (epoch : chainrpc.BlockEpoch)
    (rest : stream chainrpc.BlockEpoch) :
  (forall i, (i < length delivered)%nat -> go_select (ctx i) = SelSend) ->
  ctx_done (ctx (length delivered)) = true ->
  receiver_ready (ctx (length delivered)) = false
    \/ pick_send (ctx (length delivered)) = false ->
  let r := epoch_worker ctx (map Ok delivered ++ Ok epoch :: rest) in
  go_select (ctx (length delivered)) = SelCancel
  /\ (forall env, ctx_done env = true -> receiver_ready env = true ->
      go_select env = if pick_send env then SelSend else SelCancel)
  /\ r = (flat_map deliver delivered ++ [ARecv; AWgDone], Exited)
  /\ sent (fst r)
     = map (fun e => VEpoch (Int32.int32_of_uint32 (chainrpc.Height e)))
           delivered
  /\ errors (fst r) = [].
Proof.
  intros Hsend Hdone Hpick r.
  pose proof (go_select_cancel _ Hdone Hpick) as Hcancel.
  assert (Hr : r = (flat_map deliver delivered ++ [ARecv; AWgDone], Exited)).
  { subst r. unfold epoch_worker.
    rewrite epoch_loop_sends by (intros i Hi; now apply Hsend).
    simpl. rewrite Hcancel. unfold deferred_Done; simpl.
    now rewrite <- app_assoc. }
  split; [exact Hcancel|].
  split; [intros env H1 H2; unfold go_select; now rewrite H1, H2|].
  split; [exact Hr|]. rewrite Hr; simpl. split.
  - rewrite sent_app, sent_deliver. simpl. apply app_nil_r.
  - rewrite errors_app, errors_deliver. reflexivity.
Qed.


Lemma int32_of_uint32_small (h : Z) :
  h < Int32.half_modulus -> Int32.int32_of_uint32 h = h.
Proof.
  intros H. unfold Int32.int32_of_uint32.
  destruct (Z.ltb_spec h Int32.half_modulus); [reflexivity | lia].
Qed.

Lemma epoch_loop_sent_prefix (ctx : nat -> select_env)
    (s : stream chainrpc.BlockEpoch) :
  forall n, exists k,
    sent (fst (epoch_loop ctx n s))
    = firstn k (map (fun h => VEpoch (Int32.int32_of_uint32 h))
                    (received_heights s)).
Proof.
  induction s as [|[epoch|e] s IH]; intros n; simpl.
  - now exists 0%nat.
  - destruct (go_select (ctx n)); simpl; try now exists 0%nat.
    destruct (IH (S n)) as [k Hk]. exists (S k). simpl. now rewrite Hk.
  - now exists 0%nat.
Qed.

Lemma epoch_loop_not_cancelled (ctx : nat -> select_env)
    (s : stream chainrpc.BlockEpoch) :
  (forall n, ctx_done (ctx n) = false) ->
  forall n,
    snd (epoch_loop ctx n s) <> BlockedSelect ->
    sent (fst (epoch_loop ctx n s))
    = map (fun h => VEpoch (Int32.int32_of_uint32 h)) (received_heights s)
    /\ errors (fst (epoch_loop ctx n s)) = stream_error _ s.
Proof.
  intros Hctx. induction s as [|[epoch|e] s IH]; intros n; simpl; auto.
  unfold go_select. rewrite Hctx.
  destruct (receiver_ready (ctx n)); simpl.
  - intros H. destruct (IH (S n) H) as [-> ->]. auto.
  - intros H. now elim H.
Qed.

Lemma epoch_loop_receiving (ctx : nat -> select_env)
    (s : stream chainrpc.BlockEpoch) :
  (forall n, receiver_ready (ctx n) = true) ->
  forall n, snd (epoch_loop ctx n s) <> BlockedSelect.
Proof.
  intros Hrecv. induction s as [|[epoch|e] s IH]; intros n; simpl;
    try discriminate.
  unfold go_select. rewrite Hrecv.
  destruct (ctx_done (ctx n)); [destruct (pick_send (ctx n))|]; simpl;
    try discriminate; apply IH.
Qed.

Lemma snd_deferred_Done (r : run) : snd (deferred_Done r) = snd r.
Proof. unfold deferred_Done. now destruct (exits (snd r)). Qed.

(** C7 (amended): with a caller that never cancels, the values written
    on the output channel are the heights received from the stream, in
    the order received and without gaps, each converted to int32: the
    same number for a height below 2^31, the height minus 2^32 from 2^31
    on.  Unless the goroutine is still waiting for the caller to take a
    value, which does not happen with a caller that takes every value
    offered, they are all the heights received, and the only error
    written is the one that ended the stream, if any.  Heights 100, 101,
    102 give the three values 100, 101, 102 in that order and no
    error. *)
Theorem epoch_worker_delivers_in_order (ctx : nat -> select_env)
    (s : stream chainrpc.BlockEpoch) :
  (forall n, ctx_done (ctx n) = false) ->
  let r := epoch_worker ctx s in
  let heights := received_heights s in
  (exists k,
      sent (fst r)
      = firstn k (map (fun h => VEpoch (Int32.int32_of_uint32 h)) heights))
  /\ (snd r <> BlockedSelect ->
      sent (fst r) = map (fun h => VEpoch (Int32.int32_of_uint32 h)) heights
      /\ errors (fst r) = stream_error _ s
      /\ sent (fst r)
         = map (fun h => VEpoch (if h <? 2 ^ 31 then h else h - 2 ^ 32)) heights
      /\ (Forall (fun h => h < Int32.half_modulus) heights ->
          sent (fst r) = map VEpoch heights))
  /\ ((forall n, receiver_ready (ctx n) = true) ->
      snd r <> BlockedSelect
      /\ (let r' := epoch_worker ctx Sample.epochs_100_102 in
          sent (fst r') = [VEpoch 100; VEpoch 101; VEpoch 102]
          /\ errors (fst r') = [])).
Proof.
  intros Hctx. cbv zeta. unfold epoch_worker.
  rewrite !sent_deferred_Done, !errors_deferred_Done, !snd_deferred_Done.
  split; [|split].
  - apply epoch_loop_sent_prefix.
  - intros Hst.
    destruct (epoch_loop_not_cancelled ctx s Hctx 0 Hst) as [Hs He].
    split; [exact Hs|]. split; [exact He|]. split; [exact Hs|].
    intros Hsmall. rewrite Hs.
    apply map_ext_in. intros h Hin.
    rewrite Forall_forall in Hsmall.
    now rewrite int32_of_uint32_small by auto.
  - intros Hrecv. split; [now apply epoch_loop_receiving|].
    destruct (epoch_loop_not_cancelled ctx Sample.epochs_100_102 Hctx 0
                (epoch_loop_receiving ctx _ Hrecv 0)) as [-> ->].
    split; reflexivity.
Qed.

(** ** Errors are final *)

Lemma err_final_nil (st : status) : err_final ([], st).
Proof. intros [|a pre] e post H; discriminate. Qed.

Lemma err_final_err (e : error) : err_final ([ASendErr e], Exited).
Proof.
  intros [|a pre] e' post H; simpl in H.
  - now inversion H.
  - destruct pre; discriminate.
Qed.

Lemma err_final_prefix (a : action) (r : run) :
  (forall e, a <> ASendErr e) -> err_final r -> err_final (prefix a r).
Proof.
  intros Ha Hr [|b pre] e post H; simpl in H.
  - inversion H. now elim (Ha e).
  - inversion H. eapply Hr; eauto.
Qed.

Lemma err_final_send (v : value) (st : status) : err_final ([ASend v], st).
Proof.
  apply (err_final_prefix (ASend v) ([], st)); [discriminate|].
  apply err_final_nil.
Qed.

Lemma err_final_deferred_Done (r : run) :
  err_final r ->
  forall pre e post,
    fst (deferred_Done r) = pre ++ ASendErr e :: post ->
    post = [AWgDone] /\ snd (deferred_Done r) = Exited.
Proof.
  intros Hr pre e post. unfold deferred_Done.
  destruct (exits (snd r)) eqn:Hex; simpl; intros H.
  - destruct (exists_last (l := post)) as [post' [x Hpost]].
    + intros ->. apply (f_equal (@rev action)) in H.
      rewrite !rev_app_distr in H. simpl in H. discriminate.
    + subst post.
      change (pre ++ ASendErr e :: post' ++ [x])
        with (pre ++ (ASendErr e :: post') ++ [x]) in H.
      rewrite app_assoc in H. apply app_inj_tail in H as [H ->].
      destruct (Hr _ _ _ H) as [-> Hst]. auto.
  - destruct (Hr _ _ _ H) as [_ Hst]. rewrite Hst in Hex. discriminate.
Qed.

Lemma spend_loop_err_final (resp : stream chainrpc.SpendEvent) :
  err_final (spend_loop resp).
Proof.
  induction resp as [|[ev|e] resp IH]; simpl.
  - apply err_final_nil.
  - apply err_final_prefix; [discriminate|].
    destruct ev as [c| | |]; auto.
    destruct (processSpendDetail_cases c) as [H|[[e H]|[v H]]]; rewrite H; simpl.
    + apply err_final_nil.
    + apply err_final_err.
    + apply err_final_send.
  - apply err_final_prefix; [discriminate|]. apply err_final_err.
Qed.

Lemma conf_loop_err_final (confStream : stream chainrpc.ConfEvent) :
  err_final (conf_loop confStream).
Proof.
  induction confStream as [|[ev|e] confStream IH]; simpl.
  - apply err_final_nil.
  - apply err_final_prefix; [discriminate|].
    destruct ev as [[c|]| | |]; auto using err_final_nil, err_final_err.
    destruct (decodeTx (chainrpc.RawTx c)); [|apply err_final_err].
    destruct (chainhash.NewHash (chainrpc.BlockHash c));
      auto using err_final_send, err_final_err.
  - apply err_final_prefix; [discriminate|]. apply err_final_err.
Qed.

Lemma epoch_loop_err_final (ctx : nat -> select_env)
    (s : stream chainrpc.BlockEpoch) :
  forall n, err_final (epoch_loop ctx n s).
Proof.
  induction s as [|[epoch|e] s IH]; intros n; simpl.
  - apply err_final_nil.
  - apply err_final_prefix; [discriminate|].
    destruct (go_select (ctx n)); auto using err_final_nil.
    apply err_final_prefix; [discriminate|]. apply IH.
  - apply err_final_prefix; [discriminate|]. apply err_final_err.
Qed.

(** How many writes a loop makes. *)

Lemma spend_loop_writes (resp : stream chainrpc.SpendEvent) :
  (length (sent (fst (spend_loop resp)))
   + length (errors (fst (spend_loop resp))) <= 1)%nat.
Proof.
  induction resp as [|[ev|e] resp IH]; simpl; auto.
  destruct ev as [c| | |]; auto.
  destruct (processSpendDetail_cases c) as [H|[[e H]|[v H]]]; rewrite H; simpl; lia.
Qed.

Lemma conf_loop_writes (confStream : stream chainrpc.ConfEvent) :
  (length (sent (fst (conf_loop confStream)))
   + length (errors (fst (conf_loop confStream))) <= 1)%nat.
Proof.
  induction confStream as [|[ev|e] confStream IH]; simpl; auto.
  destruct ev as [[c|]| | |]; simpl; auto.
  destruct (decodeTx (chainrpc.RawTx c)); simpl; auto.
  destruct (chainhash.NewHash (chainrpc.BlockHash c)); simpl; auto.
Qed.

Lemma epoch_loop_errors (ctx : nat -> select_env)
    (s : stream chainrpc.BlockEpoch) :
  forall n, (length (errors (fst (epoch_loop ctx n s))) <= 1)%nat.
Proof.
  induction s as [|[epoch|e] s IH]; intros n; simpl; auto.
  destruct (go_select (ctx n)); simpl; auto.
Qed.

(** C5: whatever the stream delivers, a goroutine of any of the three
    kinds writes at most one error; the error is the last thing it does
    before the deferred Done, so no receive and no write on either
    channel follows it, and the goroutine returns.  A spend or a
    confirmation goroutine writes at most one message in all, on the
    output or on the error channel.  A block epoch goroutine can write
    many values, here three, and still one error. *)
Theorem errors_are_terminal (resp : stream chainrpc.SpendEvent)
    (confStream : stream chainrpc.ConfEvent)
    (ctx : nat -> select_env) (s : stream chainrpc.BlockEpoch) :
  let spend := spend_worker resp in
  let conf := conf_worker confStream in
  let epoch := epoch_worker ctx s in
  (forall r, In r [spend; conf; epoch] ->
     (length (errors (fst r)) <= 1)%nat
     /\ (forall pre e post,
            fst r = pre ++ ASendErr e :: post ->
            post = [AWgDone] /\ snd r = Exited))
  /\ (length (sent (fst spend)) + length (errors (fst spend)) <= 1)%nat
  /\ (length (sent (fst conf)) + length (errors (fst conf)) <= 1)%nat
  /\ (let many := epoch_worker Sample.receiving
                    (Sample.epochs_100_102 ++ [Err (ErrStream "EOF")]) in
      length (sent (fst many)) = 3%nat /\ length (errors (fst many)) = 1%nat).
Proof.
  cbv zeta.
  pose proof (spend_loop_writes resp) as Hs.
  pose proof (conf_loop_writes confStream) as Hc.
  pose proof (epoch_loop_errors ctx s 0) as He.
  split; [|split; [|split]].
  - intros r [<-|[<-|[<-|[]]]]; unfold spend_worker, conf_worker, epoch_worker;
      rewrite errors_deferred_Done;
      (split; [lia|]); apply err_final_deferred_Done.
    + apply spend_loop_err_final.
    + apply conf_loop_err_final.
    + apply epoch_loop_err_final.
  - unfold spend_worker. now rewrite sent_deferred_Done, errors_deferred_Done.
  - unfold conf_worker. now rewrite sent_deferred_Done, errors_deferred_Done.
  - split; reflexivity.
Qed.

(** ** Heights and counts *)

Lemma uint32_of_int32_negative (x : Z) :
  Int32.is_int32 x -> x < 0 ->
  Int32.uint32_of_int32 x = x + Int32.modulus
  /\ Int32.half_modulus <= Int32.uint32_of_int32 x < Int32.modulus.
Proof.
  unfold Int32.is_int32, Int32.uint32_of_int32, Int32.half_modulus, Int32.modulus.
  intros [Hlo Hhi] Hneg.
  assert (H : x mod 2 ^ 32 = x + 2 ^ 32).
  { symmetry. apply Z.mod_unique with (q := -1); lia. }
  rewrite H. lia.
Qed.


Lemma int32_of_uint32_large (x : Z) :
  Int32.is_uint32 x -> Int32.half_modulus <= x ->
  Int32.int32_of_uint32 x = x - Int32.modulus
  /\ - Int32.half_modulus <= Int32.int32_of_uint32 x < 0.
Proof.
  unfold Int32.is_uint32, Int32.int32_of_uint32, Int32.half_modulus, Int32.modulus.
  intros [Hlo Hhi] Hbig.
  destruct (Z.ltb_spec x (2 ^ 31)); lia.
Qed.

(** C10 (amended): the requests carry uint32(heightHint) and
    uint32(numConfs), the caller's int32 taken modulo 2^32, so a negative
    hint or count is sent as that number plus 2^32, which is at least
    2^31.  The epoch height and the spending height come back through
    int32(..), so such a height of 2^31 or more received from the stream
    reaches the caller as that height minus 2^32, a negative number.  No
    check guards either conversion.  The block height of a confirmation
    is not converted: the caller gets the uint32 that was received. *)
Theorem heights_are_reinterpreted :
  (forall outpoint pkScript heightHint,
      chainrpc.sr_HeightHint (spend_request outpoint pkScript heightHint)
      = heightHint mod 2 ^ 32)
  /\ (forall txid pkScript numConfs heightHint,
      chainrpc.cr_HeightHint (conf_request txid pkScript numConfs heightHint)
      = heightHint mod 2 ^ 32
      /\ chainrpc.cr_NumConfs (conf_request txid pkScript numConfs heightHint)
         = numConfs mod 2 ^ 32)
  /\ (forall outpoint pkScript heightHint,
      Int32.is_int32 heightHint -> heightHint < 0 ->
      let sent_hint :=
        chainrpc.sr_HeightHint (spend_request outpoint pkScript heightHint) in
      sent_hint = heightHint + 2 ^ 32 /\ 2 ^ 31 <= sent_hint < 2 ^ 32)
  /\ (forall txid pkScript numConfs heightHint,
      Int32.is_int32 heightHint -> heightHint < 0 ->
      Int32.is_int32 numConfs -> numConfs < 0 ->
      let req := conf_request txid pkScript numConfs heightHint in
      chainrpc.cr_HeightHint req = heightHint + 2 ^ 32
      /\ 2 ^ 31 <= chainrpc.cr_HeightHint req < 2 ^ 32
      /\ chainrpc.cr_NumConfs req = numConfs + 2 ^ 32
      /\ 2 ^ 31 <= chainrpc.cr_NumConfs req < 2 ^ 32)
  /\ (forall ctx epoch rest,
      go_select (ctx 0%nat) = SelSend ->
      hd_error (sent (fst (epoch_worker ctx (Ok epoch :: rest))))
      = Some (VEpoch (Int32.int32_of_uint32 (chainrpc.Height epoch))))
  /\ (forall ctx epoch rest,
      go_select (ctx 0%nat) = SelSend ->
      Int32.is_uint32 (chainrpc.Height epoch) ->
      2 ^ 31 <= chainrpc.Height epoch ->
      exists height,
        hd_error (sent (fst (epoch_worker ctx (Ok epoch :: rest))))
        = Some (VEpoch height)
        /\ height = chainrpc.Height epoch - 2 ^ 32 /\ height < 0)
  /\ (forall d rest detail,
      sent (fst (spend_worker (Ok (chainrpc.SpendEvent_Spend (Some d)) :: rest)))
      = [VSpend detail] ->
      chainntnfs.SpendingHeight detail
      = Int32.int32_of_uint32 (chainrpc.SpendingHeight d)
      /\ (Int32.is_uint32 (chainrpc.SpendingHeight d) ->
          2 ^ 31 <= chainrpc.SpendingHeight d ->
          chainntnfs.SpendingHeight detail = chainrpc.SpendingHeight d - 2 ^ 32
          /\ chainntnfs.SpendingHeight detail < 0))
  /\ (forall c rest conf,
      sent (fst (conf_worker (Ok (chainrpc.ConfEvent_Conf (Some c)) :: rest)))
      = [VConf conf] ->
      chainntnfs.BlockHeight conf = chainrpc.BlockHeight c).
Proof.
  assert (Hepoch : forall ctx epoch rest,
             go_select (ctx 0%nat) = SelSend ->
             hd_error (sent (fst (epoch_worker ctx (Ok epoch :: rest))))
             = Some (VEpoch (Int32.int32_of_uint32 (chainrpc.Height epoch)))).
  { intros ctx epoch rest H. unfold epoch_worker.
    rewrite sent_deferred_Done. simpl. rewrite H. reflexivity. }
  repeat apply conj; try reflexivity.
  - intros txid pkScript numConfs heightHint. split; reflexivity.
  - intros outpoint pkScript heightHint Hr Hneg. simpl.
    destruct (uint32_of_int32_negative heightHint Hr Hneg) as [H1 H2].
    unfold Int32.modulus, Int32.half_modulus in *. auto.
  - intros txid pkScript numConfs heightHint Hr Hneg Hr' Hneg'. simpl.
    destruct (uint32_of_int32_negative heightHint Hr Hneg) as [H1 H2].
    destruct (uint32_of_int32_negative numConfs Hr' Hneg') as [H3 H4].
    unfold Int32.modulus, Int32.half_modulus in *. auto.
  - exact Hepoch.
  - intros ctx epoch rest H Hr Hbig.
    destruct (int32_of_uint32_large _ Hr Hbig) as [H1 H2].
    exists (Int32.int32_of_uint32 (chainrpc.Height epoch)).
    unfold Int32.modulus in *. split; [now apply Hepoch|]. split; [auto|lia].
  - intros d rest detail. unfold spend_worker.
    rewrite sent_deferred_Done. simpl. unfold processSpendDetail.
    destruct (chainrpc.SpendingOutpoint d) as [op|]; [|discriminate].
    destruct (chainhash.NewHash (chainrpc.Hash op)); [|discriminate].
    destruct (chainhash.NewHash (chainrpc.SpendingTxHash d)); [|discriminate].
    destruct (decodeTx (chainrpc.RawSpendingTx d)); [|discriminate].
    simpl. intros H. inversion H; subst; clear H. simpl. split; [reflexivity|].
    intros Hr Hbig.
    destruct (int32_of_uint32_large _ Hr Hbig) as [H1 H2].
    unfold Int32.modulus in *. split; [auto|lia].
  - intros c rest conf. unfold conf_worker.
    rewrite sent_deferred_Done. simpl.
    destruct (decodeTx (chainrpc.RawTx c)); [|discriminate].
    destruct (chainhash.NewHash (chainrpc.BlockHash c)); [|discriminate].
    simpl. intros H. inversion H; subst; reflexivity.
Qed.

(** ** Registration *)

(** C4: each of the three registrations, when opening the stream fails
    with an error, returns nil, nil and that error and leaves the
    client as it was, so no goroutine is started and the wait group is
    untouched; when the stream opens, it returns two channels that are
    not nil (distinct, of the buffer sizes the code gives them) and a
    nil error, having added one to the wait group and started one
    goroutine on the stream. *)
Theorem registration_results (client : rpc_client) (w : world) :
  (forall outpoint pkScript heightHint,
      (forall e,
          rpc_RegisterSpendNtfn client (spend_request outpoint pkScript heightHint)
          = Err e ->
          RegisterSpendNtfn client w outpoint pkScript heightHint
          = ({| out_chan := None; err_chan := None; err := Some e |}, w))
      /\ (forall resp,
          rpc_RegisterSpendNtfn client (spend_request outpoint pkScript heightHint)
          = Ok resp ->
          let reg := fst (RegisterSpendNtfn client w outpoint pkScript heightHint) in
          let w' := snd (RegisterSpendNtfn client w outpoint pkScript heightHint) in
          (exists spendChan errChan,
              reg = {| out_chan := Some spendChan; err_chan := Some errChan;
                       err := None |}
              /\ chan_cap spendChan = 1%nat /\ chan_cap errChan = 1%nat
              /\ chan_id spendChan <> chan_id errChan)
          /\ goroutines w' = goroutines w ++ [started (spend_worker resp)]
          /\ wg w' = wg w + 1))
  /\ (forall txid pkScript numConfs heightHint,
      (forall e,
          rpc_RegisterConfirmationsNtfn client
            (conf_request txid pkScript numConfs heightHint) = Err e ->
          RegisterConfirmationsNtfn client w txid pkScript numConfs heightHint
          = ({| out_chan := None; err_chan := None; err := Some e |}, w))
      /\ (forall confStream,
          rpc_RegisterConfirmationsNtfn client
            (conf_request txid pkScript numConfs heightHint) = Ok confStream ->
          let reg := fst (RegisterConfirmationsNtfn client w txid pkScript
                                                    numConfs heightHint) in
          let w' := snd (RegisterConfirmationsNtfn client w txid pkScript
                                                   numConfs heightHint) in
          (exists confChan errChan,
              reg = {| out_chan := Some confChan; err_chan := Some errChan;
                       err := None |}
              /\ chan_cap confChan = 1%nat /\ chan_cap errChan = 1%nat
              /\ chan_id confChan <> chan_id errChan)
          /\ goroutines w' = goroutines w ++ [started (conf_worker confStream)]
          /\ wg w' = wg w + 1))
  /\ (forall ctx,
      (forall e,
          rpc_RegisterBlockEpochNtfn client = Err e ->
          RegisterBlockEpochNtfn client w ctx
          = ({| out_chan := None; err_chan := None; err := Some e |}, w))
      /\ (forall blockEpochClient,
          rpc_RegisterBlockEpochNtfn client = Ok blockEpochClient ->
          let reg := fst (RegisterBlockEpochNtfn client w ctx) in
          let w' := snd (RegisterBlockEpochNtfn client w ctx) in
          (exists blockEpochChan blockErrorChan,
              reg = {| out_chan := Some blockEpochChan;
                       err_chan := Some blockErrorChan; err := None |}
              /\ chan_cap blockEpochChan = 0%nat
              /\ chan_cap blockErrorChan = 1%nat
              /\ chan_id blockEpochChan <> chan_id blockErrorChan)
          /\ goroutines w' = goroutines w
                               ++ [started (epoch_worker ctx blockEpochClient)]
          /\ wg w' = wg w + 1)).
Proof.
  split; [|split]; intros; (split; [intros e H | intros resp H]).
  all: try (unfold RegisterSpendNtfn, RegisterConfirmationsNtfn,
                   RegisterBlockEpochNtfn; rewrite H; reflexivity).
  all: cbv zeta;
    unfold RegisterSpendNtfn, RegisterConfirmationsNtfn, RegisterBlockEpochNtfn;
    rewrite H; simpl; (split; [|split; reflexivity]);
    do 2 eexists; (split; [reflexivity|]); simpl; repeat split; lia.
Qed.

(** ** The wait group *)

Lemma dones_cons (a : action) (t : list action) :
  dones (a :: t)
  = ((match a with AWgDone => 1 | _ => 0 end) + dones t)%nat.
Proof. unfold dones; simpl. destruct a; reflexivity. Qed.

Lemma dones_prefix_ARecv (r : run) : dones (fst (prefix ARecv r)) = dones (fst r).
Proof. reflexivity. Qed.

Lemma spend_loop_dones (resp : stream chainrpc.SpendEvent) :
  dones (fst (spend_loop resp)) = 0%nat.
Proof.
  induction resp as [|[ev|e] resp IH]; auto;
    cbn [spend_loop]; rewrite dones_prefix_ARecv; auto.
  destruct ev as [c| | |]; auto.
  destruct (processSpendDetail_cases c) as [H|[[e H]|[v H]]]; rewrite H; reflexivity.
Qed.

Lemma conf_loop_dones (confStream : stream chainrpc.ConfEvent) :
  dones (fst (conf_loop confStream)) = 0%nat.
Proof.
  induction confStream as [|[ev|e] confStream IH]; auto;
    cbn [conf_loop]; rewrite dones_prefix_ARecv; auto.
  destruct ev as [[c|]| | |]; auto.
  destruct (decodeTx (chainrpc.RawTx c)); auto.
  destruct (chainhash.NewHash (chainrpc.BlockHash c)); auto.
Qed.

Lemma epoch_loop_dones (ctx : nat -> select_env)
    (s : stream chainrpc.BlockEpoch) :
  forall n, dones (fst (epoch_loop ctx n s)) = 0%nat.
Proof.
  induction s as [|[epoch|e] s IH]; intros n; auto;
    cbn [epoch_loop]; rewrite dones_prefix_ARecv; auto.
  destruct (go_select (ctx n)); auto.
  apply IH.
Qed.

(** The shape [defer] gives a run. *)
Lemma deferred_Done_shape (r : run) :
  dones (fst r) = 0%nat ->
  if exits (snd (deferred_Done r))
  then exists body, fst (deferred_Done r) = body ++ [AWgDone]
                    /\ dones body = 0%nat
  else dones (fst (deferred_Done r)) = 0%nat.
Proof.
  intros H. unfold deferred_Done.
  destruct (exits (snd r)) eqn:Hex; simpl; rewrite Hex; eauto.
Qed.

Lemma started_counted (r : run) :
  dones (fst r) = 0%nat -> counted (started (deferred_Done r)).
Proof.
  intros H. unfold counted, started; simpl.
  pose proof (deferred_Done_shape r H) as Hs.
  destruct (exits (snd (deferred_Done r))); auto.
Qed.

Lemma started_not_finished (r : run) :
  finished (started (deferred_Done r)) = false.
Proof.
  unfold finished, started, deferred_Done; simpl.
  destruct (exits (snd r)) eqn:Hex; simpl; rewrite Hex; auto.
  destruct (fst r); reflexivity.
Qed.

Lemma live_cons (g : goroutine) (gs : list goroutine) :
  live (g :: gs) = ((if finished g then 0 else 1) + live gs)%nat.
Proof. unfold live; simpl. destruct (finished g); reflexivity. Qed.

Lemma live_app (gs1 gs2 : list goroutine) :
  live (gs1 ++ gs2) = (live gs1 + live gs2)%nat.
Proof. unfold live. now rewrite filter_app, length_app. Qed.

(** One action of one goroutine. *)
Lemma counted_step (g : goroutine) (a : action) (rest : list action) :
  counted g -> todo g = a :: rest ->
  let g' := {| todo := rest; fin := fin g |} in
  counted g' /\ finished g = false
  /\ finished g' = match a with AWgDone => true | _ => false end.
Proof.
  unfold counted, finished. intros Hc Ht. simpl. rewrite Ht in *.
  destruct (exits (fin g)); simpl.
  - destruct Hc as [Hc | [body [Hb Hd]]]; [discriminate|].
    destruct body as [|b body]; simpl in Hb; inversion Hb; subst.
    + auto.
    + rewrite dones_cons in Hd.
      assert (Hd' : dones body = 0%nat) by lia.
      repeat split; eauto.
      destruct body; simpl; destruct b; simpl in Hd; (reflexivity || lia).
  - rewrite dones_cons in Hc.
    repeat split; try lia.
    destruct a; simpl in Hc; (reflexivity || lia).
Qed.

Lemma step_nth_live (gs : list goroutine) :
  Forall counted gs ->
  forall i a gs',
    step_nth i gs = Some (a, gs') ->
    Forall counted gs'
    /\ (match a with AWgDone => 1 | _ => 0 end + live gs' = live gs)%nat
    /\ length gs' = length gs.
Proof.
  induction 1 as [|g gs Hg Hgs IH]; intros i a gs' Hstep;
    [destruct i; discriminate|].
  destruct i as [|i]; simpl in Hstep.
  - destruct (todo g) as [|b rest] eqn:Ht; [discriminate|].
    inversion Hstep; subst; clear Hstep.
    destruct (counted_step g a rest Hg Ht) as [Hc [Hf Hf']].
    rewrite !live_cons, Hf, Hf'.
    split; [now constructor|]. split; [destruct a; lia | reflexivity].
  - destruct (step_nth i gs) as [[b gs'']|] eqn:Hs; [|discriminate].
    inversion Hstep; subst; clear Hstep.
    destruct (IH _ _ _ Hs) as [Hc [Hl Hn]].
    rewrite !live_cons.
    split; [now constructor|]. split; [destruct a; lia | simpl; congruence].
Qed.

(** The wait group counter is the number of goroutines that have not
    exited yet. *)
Lemma reachable_invariant (w : world) :
  reachable w ->
  Forall counted (goroutines w) /\ wg w = Z.of_nat (live (goroutines w)).
Proof.
  assert (Hgo : forall w0 r k,
             dones (fst r) = 0%nat ->
             Forall counted (goroutines w0)
             /\ wg w0 = Z.of_nat (live (goroutines w0)) ->
             let w1 := go (deferred_Done r)
                         (wg_Add 1 (snd (make_chan k (snd (make_chan 1 w0))))) in
             Forall counted (goroutines w1)
             /\ wg w1 = Z.of_nat (live (goroutines w1))).
  { intros w0 r k Hr [Hc Hw]. cbv zeta.
    unfold go, wg_Add, make_chan. cbn [goroutines wg snd]. split.
    - apply Forall_app. split; [assumption|].
      constructor; [now apply started_counted | constructor].
    - rewrite live_app, Hw.
      rewrite (live_cons (started (deferred_Done r)) []).
      rewrite started_not_finished.
      change (live []) with 0%nat. lia. }
  induction 1 as [| client w outpoint pkScript heightHint Hw IH
                  | client w txid pkScript numConfs heightHint Hw IH
                  | client w ctx Hw IH
                  | i w w' Hw IH Hs].
  - split; [constructor | reflexivity].
  - unfold RegisterSpendNtfn.
    destruct (rpc_RegisterSpendNtfn client _) as [resp|e]; [|exact IH].
    apply (Hgo w (spend_loop resp) 1%nat (spend_loop_dones resp) IH).
  - unfold RegisterConfirmationsNtfn.
    destruct (rpc_RegisterConfirmationsNtfn client _) as [confStream|e];
      [|exact IH].
    apply (Hgo w (conf_loop confStream) 1%nat (conf_loop_dones confStream) IH).
  - unfold RegisterBlockEpochNtfn.
    destruct (rpc_RegisterBlockEpochNtfn client) as [s|e]; [|exact IH].
    apply (Hgo w (epoch_loop ctx 0 s) 0%nat (epoch_loop_dones ctx s 0) IH).
  - destruct IH as [Hc Hwg]. unfold schedule in Hs.
    destruct (step_nth i (goroutines w)) as [[a gs]|] eqn:Hstep; [|discriminate].
    inversion Hs; subst; clear Hs.
    destruct (step_nth_live _ Hc _ _ _ Hstep) as [Hc' [Hl _]].
    destruct a; simpl in *; (split; [assumption | lia]).
Qed.



(** ** Further properties of the goroutines *)

(** X1: when Recv returns an error, after any events the loop stepped
    over or delivered, the goroutine writes that very error on the error
    channel, once, writes nothing else and returns; nothing after the
    error is received. *)
Theorem stream_error_is_reported (e : error) :
  (forall skipped rest,
      Forall (fun ev => is_spend ev = false) skipped ->
      spend_worker (map Ok skipped ++ Err e :: rest)
      = (repeat ARecv (length skipped) ++ [ARecv; ASendErr e; AWgDone], Exited))
  /\ (forall n rest,
      conf_worker (repeat (Ok chainrpc.ConfEvent_Reorg) n ++ Err e :: rest)
      = (repeat ARecv n ++ [ARecv; ASendErr e; AWgDone], Exited))
  /\ (forall ctx delivered rest,
      (forall i, (i < length delivered)%nat -> go_select (ctx i) = SelSend) ->
      epoch_worker ctx (map Ok delivered ++ Err e :: rest)
      = (flat_map deliver delivered ++ [ARecv; ASendErr e; AWgDone], Exited)).
Proof.
  split; [|split].
  - intros skipped rest H. now rewrite spend_worker_skips.
  - intros n rest. now rewrite conf_worker_reorgs.
  - intros ctx delivered rest H. unfold epoch_worker.
    rewrite epoch_loop_sends by (intros i Hi; now apply H).
    simpl. unfold deferred_Done; simpl. now rewrite <- app_assoc.
Qed.

(** *** Longer streams *)

Lemma continues_prefix (a : action) (r r' : run) :
  continues r r' -> continues (prefix a r) (prefix a r').
Proof.
  intros [[H ->] | [H [more Hm]]]; [now left | right].
  split; [exact H|]. exists more. simpl. now rewrite Hm.
Qed.

Lemma continues_same (r : run) : snd r <> BlockedRecv -> continues r r.
Proof. now left. Qed.

Lemma continues_start (r' : run) : continues ([], BlockedRecv) r'.
Proof. right. split; [reflexivity|]. now exists (fst r'). Qed.

Lemma spend_loop_continues (resp rest : stream chainrpc.SpendEvent) :
  continues (spend_loop resp) (spend_loop (resp ++ rest)).
Proof.
  induction resp as [|[ev|e] resp IH]; [apply continues_start| |];
    cbn [spend_loop app]; apply continues_prefix.
  - destruct ev as [c| | |]; auto.
    apply continues_same.
    destruct (processSpendDetail_cases c) as [H|[[e H]|[v H]]]; rewrite H;
      discriminate.
  - apply continues_same; discriminate.
Qed.

Lemma conf_loop_continues (confStream rest : stream chainrpc.ConfEvent) :
  continues (conf_loop confStream) (conf_loop (confStream ++ rest)).
Proof.
  induction confStream as [|[ev|e] confStream IH]; [apply continues_start| |];
    cbn [conf_loop app]; apply continues_prefix.
  - destruct ev as [[c|]| | |]; auto; apply continues_same; try discriminate.
    destruct (decodeTx (chainrpc.RawTx c)); [|discriminate].
    destruct (chainhash.NewHash (chainrpc.BlockHash c)); discriminate.
  - apply continues_same; discriminate.
Qed.

Lemma epoch_loop_continues (ctx : nat -> select_env)
    (s rest : stream chainrpc.BlockEpoch) :
  forall n, continues (epoch_loop ctx n s) (epoch_loop ctx n (s ++ rest)).
Proof.
  induction s as [|[epoch|e] s IH]; intros n; [apply continues_start| |];
    cbn [epoch_loop app]; apply continues_prefix.
  - destruct (go_select (ctx n)).
    + apply continues_prefix, IH.
    + apply continues_same; discriminate.
    + apply continues_same; discriminate.
  - apply continues_same; discriminate.
Qed.

Lemma deferred_Done_continues (r r' : run) :
  continues r r' -> continues (deferred_Done r) (deferred_Done r').
Proof.
  intros [[H ->] | [H [more Hm]]].
  - left. now rewrite snd_deferred_Done.
  - right. rewrite snd_deferred_Done. split; [exact H|].
    unfold deferred_Done at 2. rewrite H. simpl.
    unfold deferred_Done. destruct (exits (snd r')); simpl.
    + exists (more ++ [AWgDone]). now rewrite Hm, app_assoc.
    + now exists more.
Qed.

(** X2: more results on the stream never change what a goroutine has
    already done.  A goroutine that has returned or panicked, or that is
    waiting in the select, does exactly the same on any longer stream: it
    receives nothing more.  A goroutine waiting in Recv goes on from
    where it was: its actions on the longer stream begin with the ones
    it has done. *)
Theorem stream_extension
    (resp rest1 : stream chainrpc.SpendEvent)
    (confStream rest2 : stream chainrpc.ConfEvent)
    (ctx : nat -> select_env) (s rest3 : stream chainrpc.BlockEpoch)
    (r r' : run) :
  In (r, r')
     [(spend_worker resp, spend_worker (resp ++ rest1));
      (conf_worker confStream, conf_worker (confStream ++ rest2));
      (epoch_worker ctx s, epoch_worker ctx (s ++ rest3))] ->
  (snd r <> BlockedRecv -> r' = r)
  /\ (exists more, fst r' = fst r ++ more).
Proof.
  assert (H : continues r r' ->
              (snd r <> BlockedRecv -> r' = r)
              /\ (exists more, fst r' = fst r ++ more)).
  { intros [[Hs ->] | [Hs Hm]].
    - split; [reflexivity|]. exists []. now rewrite app_nil_r.
    - split; [intros Hn; now elim Hn | exact Hm]. }
  intros [Hin|[Hin|[Hin|[]]]]; inversion Hin; subst; apply H;
    apply deferred_Done_continues.
  - apply spend_loop_continues.
  - apply conf_loop_continues.
  - apply epoch_loop_continues.
Qed.

(** *** Panics *)

Lemma conf_loop_panics (confStream : stream chainrpc.ConfEvent) :
  snd (conf_loop confStream) = Panicked ->
  exists n rest,
    confStream = repeat (Ok chainrpc.ConfEvent_Reorg) n
                   ++ Ok (chainrpc.ConfEvent_Conf None) :: rest.
Proof.
  induction confStream as [|[ev|e] confStream IH]; simpl; try discriminate.
  destruct ev as [[c|]| | |]; simpl; try discriminate.
  - destruct (decodeTx (chainrpc.RawTx c)); [|discriminate].
    destruct (chainhash.NewHash (chainrpc.BlockHash c)); discriminate.
  - intros _. now exists 0%nat, confStream.
  - intros H. destruct (IH H) as [n [rest ->]]. now exists (S n), rest.
Qed.

Lemma spend_loop_panics (resp : stream chainrpc.SpendEvent) :
  snd (spend_loop resp) = Panicked ->
  exists skipped c rest,
    Forall (fun ev => is_spend ev = false) skipped
    /\ resp = map Ok skipped ++ Ok (chainrpc.SpendEvent_Spend c) :: rest
    /\ match c with
       | None => True
       | Some d => chainrpc.SpendingOutpoint d = None
       end.
Proof.
  induction resp as [|[ev|e] resp IH]; simpl; try discriminate.
  assert (Hskip : is_spend ev = false ->
                  snd (spend_loop resp) = Panicked ->
                  exists skipped c rest,
                    Forall (fun ev => is_spend ev = false) skipped
                    /\ Ok ev :: resp
                       = map Ok skipped ++ Ok (chainrpc.SpendEvent_Spend c) :: rest
                    /\ match c with
                       | None => True
                       | Some d => chainrpc.SpendingOutpoint d = None
                       end).
  { intros Hev H. destruct (IH H) as [skipped [c [rest [Hs [-> Hc]]]]].
    exists (ev :: skipped), c, rest. repeat split; auto. }
  destruct ev as [c| | |]; [|now apply Hskip..].
  intros H. exists [], c, resp. split; [constructor|]. split; [reflexivity|].
  destruct c as [d|]; [|exact I].
  unfold processSpendDetail in H.
  destruct (chainrpc.SpendingOutpoint d) as [op|]; [|reflexivity].
  destruct (chainhash.NewHash (chainrpc.Hash op)); [|discriminate].
  destruct (chainhash.NewHash (chainrpc.SpendingTxHash d)); [|discriminate].
  destruct (decodeTx (chainrpc.RawSpendingTx d)); discriminate.
Qed.

Lemma epoch_loop_never_panics (ctx : nat -> select_env)
    (s : stream chainrpc.BlockEpoch) :
  forall n, snd (epoch_loop ctx n s) <> Panicked.
Proof.
  induction s as [|[epoch|e] s IH]; intros n; simpl; try discriminate.
  destruct (go_select (ctx n)); simpl; try discriminate. apply IH.
Qed.

(** X3: a goroutine panics exactly when the first event it does not step
    over is a confirmed event with nil details, for a confirmation
    subscription, or a spend event with nil details or a nil outpoint,
    for a spend subscription.  It then writes nothing on either channel;
    the deferred Done still runs.  A block epoch goroutine never
    panics. *)
Theorem panics_exactly_on_nil_details :
  (forall n rest,
      conf_worker (repeat (Ok chainrpc.ConfEvent_Reorg) n
                     ++ Ok (chainrpc.ConfEvent_Conf None) :: rest)
      = (repeat ARecv n ++ [ARecv; AWgDone], Panicked))
  /\ (forall confStream,
      snd (conf_worker confStream) = Panicked ->
      exists n rest,
        confStream = repeat (Ok chainrpc.ConfEvent_Reorg) n
                       ++ Ok (chainrpc.ConfEvent_Conf None) :: rest)
  /\ (forall skipped c rest,
      Forall (fun ev => is_spend ev = false) skipped ->
      match c with
      | None => True
      | Some d => chainrpc.SpendingOutpoint d = None
      end ->
      spend_worker (map Ok skipped ++ Ok (chainrpc.SpendEvent_Spend c) :: rest)
      = (repeat ARecv (length skipped) ++ [ARecv; AWgDone], Panicked))
  /\ (forall resp,
      snd (spend_worker resp) = Panicked ->
      exists skipped c rest,
        Forall (fun ev => is_spend ev = false) skipped
        /\ resp = map Ok skipped ++ Ok (chainrpc.SpendEvent_Spend c) :: rest
        /\ match c with
           | None => True
           | Some d => chainrpc.SpendingOutpoint d = None
           end)
  /\ (forall ctx s, snd (epoch_worker ctx s) <> Panicked).
Proof.
  repeat apply conj.
  - intros n rest. now rewrite conf_worker_reorgs.
  - intros confStream. unfold conf_worker. rewrite snd_deferred_Done.
    apply conf_loop_panics.
  - intros skipped c rest Hs Hc. rewrite spend_worker_skips by assumption.
    unfold spend_worker. simpl.
    destruct c as [d|]; simpl; [rewrite Hc|]; reflexivity.
  - intros resp. unfold spend_worker. rewrite snd_deferred_Done.
    apply spend_loop_panics.
  - intros ctx s. unfold epoch_worker. rewrite snd_deferred_Done.
    apply epoch_loop_never_panics.
Qed.

(** *** What has been written when *)

Lemma spend_loop_outcome (resp : stream chainrpc.SpendEvent) :
  match snd (spend_loop resp) with
  | Exited =>
    (length (sent (fst (spend_loop resp)))
     + length (errors (fst (spend_loop resp))) = 1)%nat
  | Panicked | BlockedRecv =>
    sent (fst (spend_loop resp)) = [] /\ errors (fst (spend_loop resp)) = []
  | BlockedSelect => False
  end.
Proof.
  induction resp as [|[ev|e] resp IH]; simpl; auto.
  destruct ev as [c| | |]; auto.
  destruct (processSpendDetail_cases c) as [H|[[e H]|[v H]]]; rewrite H;
    simpl; auto.
Qed.

Lemma conf_loop_outcome (confStream : stream chainrpc.ConfEvent) :
  match snd (conf_loop confStream) with
  | Exited =>
    (length (sent (fst (conf_loop confStream)))
     + length (errors (fst (conf_loop confStream))) = 1)%nat
  | Panicked | BlockedRecv =>
    sent (fst (conf_loop confStream)) = []
    /\ errors (fst (conf_loop confStream)) = []
  | BlockedSelect => False
  end.
Proof.
  induction confStream as [|[ev|e] confStream IH]; simpl; auto.
  destruct ev as [[c|]| | |]; simpl; auto.
  destruct (decodeTx (chainrpc.RawTx c)); simpl; auto.
  destruct (chainhash.NewHash (chainrpc.BlockHash c)); simpl; auto.
Qed.

(** X4: a spend or confirmation goroutine that has returned has written
    exactly one message, a value or an error; one that is still waiting
    in Recv, or that panicked, has written nothing on either channel.
    Such a goroutine never waits anywhere but in Recv. *)
Theorem single_shot_outcome (resp : stream chainrpc.SpendEvent)
    (confStream : stream chainrpc.ConfEvent) (r : run) :
  In r [spend_worker resp; conf_worker confStream] ->
  match snd r with
  | Exited => (length (sent (fst r)) + length (errors (fst r)) = 1)%nat
  | Panicked | BlockedRecv => sent (fst r) = [] /\ errors (fst r) = []
  | BlockedSelect => False
  end.
Proof.
  intros [<-|[<-|[]]]; unfold spend_worker, conf_worker;
    rewrite snd_deferred_Done, sent_deferred_Done, errors_deferred_Done.
  - apply spend_loop_outcome.
  - apply conf_loop_outcome.
Qed.

Lemma receives_prefix (a : action) (r : run) :
  receives (fst (prefix a r))
  = ((match a with ARecv => 1 | _ => 0 end) + receives (fst r))%nat.
Proof. unfold receives; simpl. destruct a; reflexivity. Qed.

Lemma receives_deferred_Done (r : run) :
  receives (fst (deferred_Done r)) = receives (fst r).
Proof.
  unfold deferred_Done, receives. destruct (exits (snd r)); simpl; auto.
  rewrite filter_app, length_app. simpl. lia.
Qed.

Lemma epoch_loop_receives (ctx : nat -> select_env)
    (s : stream chainrpc.BlockEpoch) :
  forall n,
    let r := epoch_loop ctx n s in
    (length (sent (fst r)) <= receives (fst r) <= length s)%nat
    /\ (receives (fst r) <= length (sent (fst r)) + 1)%nat
    /\ (snd r = BlockedRecv -> receives (fst r) = length (sent (fst r))).
Proof.
  induction s as [|[epoch|e] s IH]; intros n; cbv zeta.
  - simpl. repeat split; auto.
  - cbn [epoch_loop]. rewrite receives_prefix.
    destruct (go_select (ctx n)).
    + rewrite receives_prefix. simpl sent. simpl length.
      destruct (IH (S n)) as [[H1 H2] [H3 H4]]. simpl snd.
      repeat split; try lia. intros H. specialize (H4 H). lia.
    + unfold receives. simpl. repeat split; intros; try discriminate; lia.
    + unfold receives. simpl. repeat split; intros; try discriminate; lia.
  - cbn [epoch_loop]. rewrite receives_prefix. unfold receives. simpl.
    repeat split; intros; try discriminate; lia.
Qed.

(** X5: a block epoch goroutine does not read ahead.  It receives the
    next height only after the previous one was taken by the caller, so
    at any time it has received at most one height more than it has
    delivered, and none more while it waits in Recv; it never receives
    more results than the stream holds. *)
Theorem epoch_worker_no_read_ahead (ctx : nat -> select_env)
    (s : stream chainrpc.BlockEpoch) :
  let r := epoch_worker ctx s in
  (length (sent (fst r)) <= receives (fst r) <= length s)%nat
  /\ (receives (fst r) <= length (sent (fst r)) + 1)%nat
  /\ (snd r = BlockedRecv -> receives (fst r) = length (sent (fst r))).
Proof.
  cbv zeta. unfold epoch_worker.
  rewrite receives_deferred_Done, sent_deferred_Done, snd_deferred_Done.
  apply (epoch_loop_receives ctx s 0).
Qed.

Lemma epoch_loop_exit (ctx : nat -> select_env)
    (s : stream chainrpc.BlockEpoch) :
  forall n,
    let r := epoch_loop ctx n s in
    (snd r = Exited ->
     (exists e, errors (fst r) = [e] /\ stream_error _ s = [e])
     \/ (errors (fst r) = []
         /\ exists k, (n <= k < n + length s)%nat /\ go_select (ctx k) = SelCancel))
    /\ (exits (snd r) = true -> snd r = Exited).
Proof.
  induction s as [|[epoch|e] s IH]; intros n; cbv zeta; simpl.
  - split; discriminate.
  - destruct (go_select (ctx n)) eqn:Hsel; simpl.
    + destruct (IH (S n)) as [H1 H2]. split; [|exact H2].
      intros H. destruct (H1 H) as [Herr | [Hnone [k [Hk Hc]]]]; [now left|].
      right. split; [exact Hnone|]. exists k. split; [lia | exact Hc].
    + split; [|reflexivity]. intros _. right. split; [reflexivity|].
      exists n. split; [lia | exact Hsel].
    + split; discriminate.
  - split; [|reflexivity]. intros _. left. now exists e.
Qed.

(** X6: a block epoch subscription ends only by a stream error or by
    cancellation.  A goroutine that has returned either wrote the
    stream's error, or wrote no error and one of its selects took the
    cancellation case.  On a stream without error and with a caller that
    never cancels the goroutine never returns and never writes an
    error. *)
Theorem epoch_worker_lifetime (ctx : nat -> select_env)
    (s : stream chainrpc.BlockEpoch) :
  let r := epoch_worker ctx s in
  (snd r = Exited ->
   (exists e, errors (fst r) = [e] /\ stream_error _ s = [e])
   \/ (errors (fst r) = []
       /\ exists k, (k < length s)%nat /\ go_select (ctx k) = SelCancel))
  /\ (stream_error _ s = [] ->
      (forall n, ctx_done (ctx n) = false) ->
      exits (snd r) = false /\ errors (fst r) = []).
Proof.
  cbv zeta. unfold epoch_worker.
  rewrite snd_deferred_Done, errors_deferred_Done.
  destruct (epoch_loop_exit ctx s 0) as [H1 H2].
  assert (Hexit : snd (epoch_loop ctx 0 s) = Exited ->
            (exists e, errors (fst (epoch_loop ctx 0 s)) = [e]
                       /\ stream_error _ s = [e])
            \/ (errors (fst (epoch_loop ctx 0 s)) = []
                /\ exists k, (k < length s)%nat /\ go_select (ctx k) = SelCancel)).
  { intros H. destruct (H1 H) as [Herr | [Hnone [k [Hk Hc]]]]; [now left|].
    right. split; [exact Hnone|]. exists k. split; [lia | exact Hc]. }
  split; [exact Hexit|].
  intros Hs Hctx.
  assert (Hne : snd (epoch_loop ctx 0 s) <> Exited).
  { intros H. destruct (Hexit H) as [[e [_ He]] | [_ [k [_ Hc]]]].
    - rewrite Hs in He. discriminate.
    - unfold go_select in Hc. rewrite Hctx in Hc.
      destruct (receiver_ready (ctx k)); discriminate. }
  split.
  - destruct (exits (snd (epoch_loop ctx 0 s))) eqn:Hex; [|reflexivity].
    now elim Hne; apply H2.
  - pose proof (epoch_loop_errors ctx s 0) as Hle.
    pose proof (epoch_loop_err_final ctx s 0) as Hfin.
    destruct (errors (fst (epoch_loop ctx 0 s))) as [|e l] eqn:He; [reflexivity|].
    exfalso.
    assert (Hin : exists pre post,
               fst (epoch_loop ctx 0 s) = pre ++ ASendErr e :: post).
    { clear - He. induction (fst (epoch_loop ctx 0 s)) as [|a t IH];
        [discriminate|].
      destruct a; simpl in He;
        try (destruct (IH He) as [pre [post ->]];
             eexists (_ :: pre), post; reflexivity).
      inversion He; subst. now exists [], t. }
    destruct Hin as [pre [post Hp]].
    destruct (Hfin _ _ _ Hp) as [_ Hst]. now elim Hne.
Qed.

(** *** The wait group, both ways *)


Lemma finished_live (gs : list goroutine) :
  Forall (fun g => finished g = true) gs -> live gs = 0%nat.
Proof.
  induction 1 as [|g gs Hg _ IH]; [reflexivity|].
  rewrite live_cons, Hg, IH. reflexivity.
Qed.


Lemma step_nth_pending (gs : list goroutine) :
  Forall (fun g => fin g = Exited) gs ->
  (0 < pending gs)%nat ->
  exists i a gs',
    step_nth i gs = Some (a, gs')
    /\ S (pending gs') = pending gs
    /\ Forall (fun g => fin g = Exited) gs'.
Proof.
  induction 1 as [|g gs Hg Hgs IH]; simpl; [lia|].
  destruct (todo g) as [|a rest] eqn:Ht; simpl.
  - intros Hp. destruct (IH Hp) as [i [a [gs' [Hs [Hp' Hf]]]]].
    exists (S i), a, (g :: gs'). simpl. rewrite Hs, Ht. simpl.
    repeat split; auto.
  - intros _. exists 0%nat, a, ({| todo := rest; fin := fin g |} :: gs).
    simpl. rewrite Ht. repeat split; auto.
Qed.

Lemma pending_zero_finished (gs : list goroutine) :
  Forall (fun g => fin g = Exited) gs ->
  pending gs = 0%nat ->
  Forall (fun g => finished g = true) gs.
Proof.
  induction 1 as [|g gs Hg Hgs IH]; simpl; [constructor|].
  intros Hp. constructor.
  - unfold finished. rewrite Hg. destruct (todo g); [reflexivity|].
    simpl in Hp. lia.
  - apply IH. lia.
Qed.

(** X8: shutdown can complete.  From any state the client can reach in
    which every goroutine started is one that returns (its stream brought
    an error, a terminal event or an observed cancellation) and none
    panics, letting the goroutines perform the actions they have left,
    as many steps as there are such actions, leads to a state in which
    WaitForFinished returns. *)
Theorem shutdown_completes (w : world) :
  reachable w ->
  Forall (fun g => fin g = Exited) (goroutines w) ->
  exists order w',
    length order = pending (goroutines w)
    /\ run_schedule order w = Some w'
    /\ reachable w'
    /\ WaitForFinished w' = Some tt
    /\ length (goroutines w') = length (goroutines w).
Proof.
  remember (pending (goroutines w)) as k eqn:Hk.
  revert w Hk. induction k as [|k IH]; intros w Hk Hw Hex.
  - exists [], w. repeat split; auto.
    destruct (reachable_invariant w Hw) as [_ Hwg].
    unfold WaitForFinished.
    rewrite Hwg, (finished_live (goroutines w)); [reflexivity|].
    apply pending_zero_finished; auto.
  - destruct (step_nth_pending _ Hex) as [i [a [gs' [Hs [Hp Hf]]]]]; [lia|].
    pose (w1 := perform a {| wg := wg w; goroutines := gs';
                             next_chan := next_chan w |}).
    assert (Hsched : schedule i w = Some w1)
      by (unfold schedule; now rewrite Hs).
    assert (Hgs : goroutines w1 = gs') by (unfold w1; now destruct a).
    assert (Hw1 : reachable w1) by (eapply reach_schedule; eauto).
    destruct (IH w1) as [order [w' [Hlen [Hrun [Hr [Hwait Hn]]]]]].
    + rewrite Hgs. lia.
    + exact Hw1.
    + now rewrite Hgs.
    + exists (i :: order), w'. simpl. rewrite Hsched.
      repeat split; auto.
      rewrite Hn, Hgs.
      destruct (reachable_invariant w Hw) as [Hc _].
      now destruct (step_nth_live _ Hc _ _ _ Hs) as [_ [_ ->]].
Qed.

(** *** Round trips *)

(** X9: the outpoint a caller registers comes back unchanged.  When the
    server reports a spend of the very outpoint that the request of
    RegisterSpendNtfn carried, and the rest of the event decodes, the
    SpendDetail written has the caller's outpoint as its spent
    outpoint. *)
Theorem outpoint_round_trip (outpoint : wire.OutPoint) (pkScript : bytes)
    (heightHint : Z) (d : chainrpc.SpendDetails)
    (txHash : chainhash.Hash) (tx : MsgTx)
    (rest : stream chainrpc.SpendEvent) :
  length (wire.Hash outpoint) = chainhash.HashSize ->
  chainrpc.SpendingOutpoint d
  = chainrpc.sr_Outpoint (spend_request (Some outpoint) pkScript heightHint) ->
  chainhash.NewHash (chainrpc.SpendingTxHash d) = Ok txHash ->
  decodeTx (chainrpc.RawSpendingTx d) = Ok tx ->
  exists detail,
    sent (fst (spend_worker (Ok (chainrpc.SpendEvent_Spend (Some d)) :: rest)))
    = [VSpend detail]
    /\ chainntnfs.SpentOutPoint detail = outpoint.
Proof.
  intros Hlen Hop Htx Hraw. unfold spend_worker.
  rewrite sent_deferred_Done. simpl. simpl in Hop. rewrite Hop.
  unfold chainhash.NewHash at 1. simpl.
  rewrite Hlen, Nat.eqb_refl, Htx, Hraw. simpl.
  eexists. split; [reflexivity|]. simpl. now destruct outpoint.
Qed.

Lemma int32_uint32_int32 (x : Z) :
  Int32.is_int32 x -> Int32.int32_of_uint32 (Int32.uint32_of_int32 x) = x.
Proof.
  intros Hx. destruct (Z.lt_ge_cases x 0) as [Hneg | Hpos].
  - destruct (uint32_of_int32_negative x Hx Hneg) as [H1 H2].
    unfold Int32.int32_of_uint32.
    destruct (Z.ltb_spec (Int32.uint32_of_int32 x) Int32.half_modulus); lia.
  - unfold Int32.is_int32, Int32.half_modulus in Hx.
    unfold Int32.uint32_of_int32, Int32.modulus.
    rewrite Z.mod_small by lia.
    apply int32_of_uint32_small. unfold Int32.half_modulus. lia.
Qed.

Lemma uint32_int32_uint32 (u : Z) :
  Int32.is_uint32 u ->
  Int32.is_int32 (Int32.int32_of_uint32 u)
  /\ Int32.uint32_of_int32 (Int32.int32_of_uint32 u) = u.
Proof.
  unfold Int32.is_uint32, Int32.is_int32, Int32.int32_of_uint32,
    Int32.uint32_of_int32, Int32.half_modulus, Int32.modulus.
  intros Hu. destruct (Z.ltb_spec u (2 ^ 31)).
  - split; [lia|]. apply Z.mod_small. lia.
  - split; [lia|]. symmetry. apply Z.mod_unique with (q := -1); lia.
Qed.

Lemma uint32_of_int32_range (x : Z) : Int32.is_uint32 (Int32.uint32_of_int32 x).
Proof.
  unfold Int32.is_uint32, Int32.uint32_of_int32, Int32.modulus.
  apply Z.mod_pos_bound. lia.
Qed.

(** X10: the conversions lose nothing.  Whatever the caller passes, the
    height hint and the confirmation count in a request are valid uint32
    values, and int32(..) of them gives back the caller's int32.  A
    uint32 height from the stream reaches the caller as a valid int32
    whose uint32(..) is the height received, so different heights are
    never delivered as the same value. *)
Theorem conversions_lose_nothing :
  (forall outpoint pkScript heightHint,
      let req := spend_request outpoint pkScript heightHint in
      Int32.is_uint32 (chainrpc.sr_HeightHint req)
      /\ (Int32.is_int32 heightHint ->
          Int32.int32_of_uint32 (chainrpc.sr_HeightHint req) = heightHint))
  /\ (forall txid pkScript numConfs heightHint,
      let req := conf_request txid pkScript numConfs heightHint in
      Int32.is_uint32 (chainrpc.cr_HeightHint req)
      /\ Int32.is_uint32 (chainrpc.cr_NumConfs req)
      /\ (Int32.is_int32 heightHint ->
          Int32.int32_of_uint32 (chainrpc.cr_HeightHint req) = heightHint)
      /\ (Int32.is_int32 numConfs ->
          Int32.int32_of_uint32 (chainrpc.cr_NumConfs req) = numConfs))
  /\ (forall ctx epoch rest height,
      Int32.is_uint32 (chainrpc.Height epoch) ->
      hd_error (sent (fst (epoch_worker ctx (Ok epoch :: rest))))
      = Some (VEpoch height) ->
      Int32.is_int32 height
      /\ Int32.uint32_of_int32 height = chainrpc.Height epoch)
  /\ (forall ctx epoch epoch' rest rest' height,
      Int32.is_uint32 (chainrpc.Height epoch) ->
      Int32.is_uint32 (chainrpc.Height epoch') ->
      hd_error (sent (fst (epoch_worker ctx (Ok epoch :: rest))))
      = Some (VEpoch height) ->
      hd_error (sent (fst (epoch_worker ctx (Ok epoch' :: rest'))))
      = Some (VEpoch height) ->
      chainrpc.Height epoch = chainrpc.Height epoch').
Proof.
  assert (Hhd : forall ctx epoch rest height,
             Int32.is_uint32 (chainrpc.Height epoch) ->
             hd_error (sent (fst (epoch_worker ctx (Ok epoch :: rest))))
             = Some (VEpoch height) ->
             Int32.is_int32 height
             /\ Int32.uint32_of_int32 height = chainrpc.Height epoch).
  { intros ctx epoch rest height Hu. unfold epoch_worker.
    rewrite sent_deferred_Done. simpl.
    destruct (go_select (ctx 0%nat)); simpl; try discriminate.
    intros H. inversion H; subst. now apply uint32_int32_uint32. }
  repeat apply conj.
  - intros outpoint pkScript heightHint. simpl.
    split; [apply uint32_of_int32_range | apply int32_uint32_int32].
  - intros txid pkScript numConfs heightHint. simpl.
    repeat split; try apply uint32_of_int32_range; apply int32_uint32_int32.
  - exact Hhd.
  - intros ctx epoch epoch' rest rest' height Hu Hu' H H'.
    destruct (Hhd _ _ _ _ Hu H) as [_ <-].
    now destruct (Hhd _ _ _ _ Hu' H') as [_ <-].
Qed.

End Client.

Arguments VSpend {MsgTx} d.
Arguments VConf {MsgTx} c.
Arguments VEpoch {MsgTx} height.
Arguments ARecv {MsgTx}.
Arguments ASend {MsgTx} v.
Arguments ASendErr {MsgTx} e.
Arguments AWgDone {MsgTx}.
Arguments sent {MsgTx} t.
Arguments errors {MsgTx} t.
Arguments dones {MsgTx} t.
Arguments spend_worker {MsgTx} decodeTx resp.
Arguments conf_worker {MsgTx} decodeTx confStream.
Arguments processSpendDetail {MsgTx} decodeTx d.
Arguments todo {MsgTx} g.
Arguments fin {MsgTx} g.
Arguments wg {MsgTx} w.
Arguments goroutines {MsgTx} w.
Arguments finished {MsgTx} g.
Arguments reachable {MsgTx} decodeTx w.
Arguments WaitForFinished {MsgTx} w.
Arguments schedule {MsgTx} i w.
Arguments RegisterSpendNtfn {MsgTx} decodeTx client w outpoint pkScript heightHint.
Arguments RegisterConfirmationsNtfn {MsgTx} decodeTx client w txid pkScript numConfs heightHint.
Arguments RegisterBlockEpochNtfn {MsgTx} client w ctx.

(** ** The theorems at work on concrete streams *)

(** C1: a reorg followed by a confirmed event that decodes gives the one
    TxConfirmation and no error. *)
Lemma conf_worker_classifies_witness :
  conf_worker Sample.decodeTx
    [Ok chainrpc.ConfEvent_Reorg;
     Ok (chainrpc.ConfEvent_Conf (Some Sample.conf_details))]
  = ([ARecv; ARecv;
      ASend (VConf {| chainntnfs.BlockHeight := 700000;
                      chainntnfs.BlockHash := Sample.hash_11;
                      chainntnfs.Tx := Sample.raw_tx;
                      chainntnfs.TxIndex := 3 |});
      AWgDone],
     Exited).
Proof.
  destruct (conf_worker_classifies bytes Sample.decodeTx 1 []) as [H _].
  exact (H Sample.conf_details Sample.raw_tx Sample.hash_11 eq_refl eq_refl).
Defined.

(** C1 as stated fails: a confirmed event whose block hash is not 32 bytes
    long makes the goroutine write an error and no TxConfirmation, whatever
    the transaction decoder answers. *)
Lemma conf_worker_confirmed_bad_hash :
  let ev := chainrpc.ConfEvent_Conf
              (Some {| chainrpc.RawTx := Sample.raw_tx;
                       chainrpc.BlockHash := [];
                       chainrpc.BlockHeight := 700000;
                       chainrpc.TxIndex := 3 |}) in
  conf_worker Sample.decodeTx [Ok ev]
  = ([ARecv; ASendErr (ErrHashLength 0); AWgDone], Exited)
  /\ length (sent (fst (conf_worker Sample.decodeTx [Ok ev]))) <> 1%nat
  /\ (forall (MsgTx : Type) (decodeTx : bytes -> result MsgTx),
         sent (fst (conf_worker decodeTx [Ok ev])) = []
         /\ length (errors (fst (conf_worker decodeTx [Ok ev]))) = 1%nat).
Proof.
  cbv zeta. split; [reflexivity|]. split; [discriminate|].
  intros MsgTx decodeTx. unfold conf_worker. simpl.
  destruct (decodeTx Sample.raw_tx); split; reflexivity.
Qed.

(** C2: three events that are not spends, then the spend of the all-zero
    outpoint at height 700000, give the one SpendDetail. *)
Lemma spend_worker_first_spend_witness :
  spend_worker Sample.decodeTx
    [Ok chainrpc.SpendEvent_Reorg; Ok chainrpc.SpendEvent_nil;
     Ok chainrpc.SpendEvent_other;
     Ok (chainrpc.SpendEvent_Spend (Some Sample.spend_details))]
  = ([ARecv; ARecv; ARecv; ARecv;
      ASend (VSpend {|
        chainntnfs.SpentOutPoint :=
          {| wire.Hash := Sample.zero_hash; wire.Index := 0 |};
        chainntnfs.SpenderTxHash := Sample.hash_11;
        chainntnfs.SpenderInputIndex := 2;
        chainntnfs.SpendingTx := Sample.raw_tx;
        chainntnfs.SpendingHeight := 700000 |});
      AWgDone],
     Exited).
Proof.
  destruct (spend_worker_first_spend bytes Sample.decodeTx
              [chainrpc.SpendEvent_Reorg; chainrpc.SpendEvent_nil;
               chainrpc.SpendEvent_other]
              Sample.spend_details
              {| chainrpc.Hash := Sample.zero_hash; chainrpc.Index := 0 |}
              [])
    as [H _].
  - repeat constructor.
  - reflexivity.
  - exact (H Sample.zero_hash Sample.hash_11 Sample.raw_tx
             eq_refl eq_refl eq_refl).
Defined.

(** C2 as stated fails: a spend event whose outpoint hash is not 32 bytes
    long makes the goroutine write an error and no SpendDetail, whatever
    the transaction decoder answers. *)
Lemma spend_worker_spend_bad_hash :
  let ev := chainrpc.SpendEvent_Spend
              (Some {| chainrpc.SpendingOutpoint :=
                         Some {| chainrpc.Hash := []; chainrpc.Index := 0 |};
                       chainrpc.RawSpendingTx := Sample.raw_tx;
                       chainrpc.SpendingTxHash := Sample.hash_11;
                       chainrpc.SpendingInputIndex := 2;
                       chainrpc.SpendingHeight := 700000 |}) in
  spend_worker Sample.decodeTx [Ok ev]
  = ([ARecv; ASendErr (ErrHashLength 0); AWgDone], Exited)
  /\ length (sent (fst (spend_worker Sample.decodeTx [Ok ev]))) <> 1%nat
  /\ (forall (MsgTx : Type) (decodeTx : bytes -> result MsgTx),
         spend_worker decodeTx [Ok ev]
         = ([ARecv; ASendErr (ErrHashLength 0); AWgDone], Exited)).
Proof.
  cbv zeta. split; [reflexivity|]. split; [discriminate|]. reflexivity.
Qed.

(** C3: two heights are taken, the caller cancels and goes away, and the
    third height is dropped: the goroutine returns and the fourth event is
    never received. *)
Lemma epoch_worker_drops_on_cancel_witness :
  epoch_worker bytes (Sample.cancelled_after 2)
    (Sample.epochs_100_102 ++ [Ok {| chainrpc.Height := 103 |}])
  = ([ARecv; ASend (VEpoch 100); ARecv; ASend (VEpoch 101); ARecv; AWgDone],
     Exited).
Proof.
  destruct (epoch_worker_drops_on_cancel bytes (Sample.cancelled_after 2)
              [{| chainrpc.Height := 100 |}; {| chainrpc.Height := 101 |}]
              {| chainrpc.Height := 102 |}
              [Ok {| chainrpc.Height := 103 |}])
    as [_ [_ [H _]]].
  - intros [|[|i]] Hi; [reflexivity | reflexivity | simpl in Hi; lia].
  - reflexivity.
  - left; reflexivity.
  - exact H.
Defined.

(** C3 as stated fails: with the context already done and a receiver still
    ready, the select may take the send, and the height is delivered. *)
Lemma epoch_worker_sends_after_cancel :
  ctx_done (Sample.cancelled_receiving 0) = true
  /\ go_select (Sample.cancelled_receiving 0) = SelSend
  /\ epoch_worker bytes Sample.cancelled_receiving
       [Ok {| chainrpc.Height := 100 |}]
     = ([ARecv; ASend (VEpoch 100)], BlockedRecv)
  /\ sent (fst (epoch_worker bytes Sample.cancelled_receiving
                  [Ok {| chainrpc.Height := 100 |}]))
     = [VEpoch 100].
Proof. repeat split. Qed.

(** C4: a client whose spend stream cannot be opened and whose block epoch
    stream can.  The spend registration returns nil, nil and the error and
    starts nothing; the block epoch registration returns two channels and
    starts one goroutine. *)
Lemma registration_results_witness :
  let client :=
    {| rpc_RegisterSpendNtfn := fun _ => Err (ErrStream "unavailable");
       rpc_RegisterConfirmationsNtfn := fun _ => Err (ErrStream "unavailable");
       rpc_RegisterBlockEpochNtfn := Ok Sample.epochs_100_102 |} in
  let w := newChainNotifierClient bytes in
  RegisterSpendNtfn Sample.decodeTx client w None [] 0
  = ({| out_chan := None; err_chan := None;
        err := Some (ErrStream "unavailable") |}, w)
  /\ (exists blockEpochChan blockErrorChan,
         fst (RegisterBlockEpochNtfn client w Sample.receiving)
         = {| out_chan := Some blockEpochChan;
              err_chan := Some blockErrorChan; err := None |}
         /\ chan_cap blockEpochChan = 0%nat
         /\ chan_cap blockErrorChan = 1%nat
         /\ chan_id blockEpochChan <> chan_id blockErrorChan)
  /\ length (goroutines (snd (RegisterBlockEpochNtfn client w Sample.receiving)))
     = 1%nat.
Proof.
  cbv zeta.
  pose (client :=
    {| rpc_RegisterSpendNtfn := fun _ => Err (ErrStream "unavailable");
       rpc_RegisterConfirmationsNtfn := fun _ => Err (ErrStream "unavailable");
       rpc_RegisterBlockEpochNtfn := Ok Sample.epochs_100_102 |}).
  destruct (registration_results bytes Sample.decodeTx client (newChainNotifierClient bytes))
    as [Hspend [_ Hepoch]].
  destruct (Hspend None [] 0) as [Hfail _].
  destruct (Hepoch Sample.receiving) as [_ Hok].
  destruct (Hok Sample.epochs_100_102 eq_refl) as [Hchans [Hgo _]].
  split; [exact (Hfail (ErrStream "unavailable") eq_refl)|].
  split; [exact Hchans|].
  fold client. rewrite Hgo. reflexivity.
Defined.

(** C5: the error a confirmation goroutine writes for a nil event is
    followed by the deferred Done and nothing else, although the stream
    holds more. *)
Lemma errors_are_terminal_witness :
  let r := conf_worker Sample.decodeTx
             [Ok chainrpc.ConfEvent_nil;
              Ok (chainrpc.ConfEvent_Conf (Some Sample.conf_details))] in
  fst r = [ARecv] ++ ASendErr (Errorf "conf event empty") :: [AWgDone]
  /\ snd r = Exited
  /\ (length (errors (fst r)) <= 1)%nat.
Proof.
  cbv zeta.
  destruct (errors_are_terminal bytes Sample.decodeTx []
              [Ok chainrpc.ConfEvent_nil;
               Ok (chainrpc.ConfEvent_Conf (Some Sample.conf_details))]
              Sample.receiving [])
    as [H _].
  destruct (H (conf_worker Sample.decodeTx
                 [Ok chainrpc.ConfEvent_nil;
                  Ok (chainrpc.ConfEvent_Conf (Some Sample.conf_details))]))
    as [Hone Hlast].
  - right; left; reflexivity.
  - destruct (Hlast [ARecv] (Errorf "conf event empty") [AWgDone] eq_refl)
      as [_ Hst].
    split; [reflexivity|]. split; [exact Hst | exact Hone].
Defined.


(** C7: heights 100, 101, 102 reach a caller that keeps receiving as 100,
    101, 102, with no error. *)
Lemma epoch_worker_delivers_in_order_witness :
  sent (fst (epoch_worker bytes Sample.receiving Sample.epochs_100_102))
  = [VEpoch 100; VEpoch 101; VEpoch 102]
  /\ errors (fst (epoch_worker bytes Sample.receiving Sample.epochs_100_102))
     = [].
Proof.
  destruct (epoch_worker_delivers_in_order bytes Sample.receiving
              Sample.epochs_100_102 (fun _ => eq_refl))
    as [_ [_ H]].
  exact (proj2 (H (fun _ => eq_refl))).
Defined.

(** C8 as stated fails: a spend goroutine that receives an event with no
    variant set, and then one of an unknown variant, writes no error; it
    goes on receiving. *)
Lemma spend_worker_ignores_unset_variant :
  spend_worker Sample.decodeTx
    [Ok chainrpc.SpendEvent_nil; Ok chainrpc.SpendEvent_other]
  = ([ARecv; ARecv], BlockedRecv)
  /\ errors (fst (spend_worker Sample.decodeTx
                    [Ok chainrpc.SpendEvent_nil; Ok chainrpc.SpendEvent_other]))
     = [].
Proof. split; reflexivity. Qed.

(** C9: the sample spend event with its outpoint taken away.  The
    goroutine panics and writes nothing. *)
Lemma processSpendDetail_nil_outpoint_witness :
  let d := {| chainrpc.SpendingOutpoint := None;
              chainrpc.RawSpendingTx := Sample.raw_tx;
              chainrpc.SpendingTxHash := Sample.hash_11;
              chainrpc.SpendingInputIndex := 2;
              chainrpc.SpendingHeight := 700000 |} in
  processSpendDetail Sample.decodeTx (Some d) = ([], Panic)
  /\ spend_worker Sample.decodeTx [Ok (chainrpc.SpendEvent_Spend (Some d))]
     = ([ARecv; AWgDone], Panicked)
  /\ (exists written returned,
         processSpendDetail Sample.decodeTx (Some Sample.spend_details)
         = (written, Return returned)).
Proof.
  cbv zeta.
  destruct (processSpendDetail_nil_outpoint bytes Sample.decodeTx
              {| chainrpc.SpendingOutpoint := None;
                 chainrpc.RawSpendingTx := Sample.raw_tx;
                 chainrpc.SpendingTxHash := Sample.hash_11;
                 chainrpc.SpendingInputIndex := 2;
                 chainrpc.SpendingHeight := 700000 |} [])
    as [Hnil _].
  destruct (Hnil eq_refl) as [Hp [Hw _]].
  destruct (processSpendDetail_nil_outpoint bytes Sample.decodeTx
              Sample.spend_details [])
    as [_ Hsome].
  split; [exact Hp|]. split; [exact Hw|].
  exact (Hsome _ eq_refl).
Defined.

(** C10: a height hint of -1 is sent as 4294967295, and an epoch height of
    2147483648 reaches the caller as -2147483648. *)
Lemma heights_are_reinterpreted_witness :
  chainrpc.sr_HeightHint (spend_request None [] (-1)) = 4294967295
  /\ (exists height,
         hd_error (sent (fst (epoch_worker bytes Sample.receiving
                                [Ok {| chainrpc.Height := 2147483648 |}])))
         = Some (VEpoch height)
         /\ height = 2147483648 - 2 ^ 32 /\ height < 0).
Proof.
  destruct (heights_are_reinterpreted bytes Sample.decodeTx)
    as [_ [_ [Hhint [_ [_ [Hepoch _]]]]]].
  split.
  - assert (Hr : Int32.is_int32 (-1)) by (unfold Int32.is_int32, Int32.half_modulus; lia).
    assert (Hneg : -1 < 0) by lia.
    exact (proj1 (Hhint None [] (-1) Hr Hneg)).
  - assert (Hr : Int32.is_uint32 2147483648)
      by (unfold Int32.is_uint32, Int32.modulus; lia).
    assert (Hbig : 2 ^ 31 <= 2147483648) by lia.
    exact (Hepoch Sample.receiving {| chainrpc.Height := 2147483648 |} []
             eq_refl Hr Hbig).
Defined.

(** C10 as stated fails for one height: a confirmation at block height
    3000000000, which is above 2^31, reaches the caller with that same
    block height, not with a negative one. *)
Lemma conf_worker_keeps_block_height :
  let c := {| chainrpc.RawTx := Sample.raw_tx;
              chainrpc.BlockHash := Sample.hash_11;
              chainrpc.BlockHeight := 3000000000;
              chainrpc.TxIndex := 3 |} in
  2 ^ 31 <= chainrpc.BlockHeight c
  /\ sent (fst (conf_worker Sample.decodeTx
                  [Ok (chainrpc.ConfEvent_Conf (Some c))]))
     = [VConf {| chainntnfs.BlockHeight := 3000000000;
                 chainntnfs.BlockHash := Sample.hash_11;
                 chainntnfs.Tx := Sample.raw_tx;
                 chainntnfs.TxIndex := 3 |}]
  /\ 3000000000 <> Int32.int32_of_uint32 3000000000
  /\ Int32.int32_of_uint32 3000000000 = -1294967296.
Proof.
  cbv zeta. split; [simpl; lia|]. split; [reflexivity|].
  split; [discriminate | reflexivity].
Qed.

(** C7 as stated fails.  A caller that never cancels and takes every
    value gets the heights 2147483648 and 4294967295 as -2147483648 and
    -1, not as the heights received; and when a caller that never
    cancels does not take the value, the height received is not
    delivered. *)
Lemma epoch_worker_wraps_large_heights :
  let s := [Ok {| chainrpc.Height := 100 |};
            Ok {| chainrpc.Height := 2147483648 |};
            Ok {| chainrpc.Height := 4294967295 |}] in
  let idle := fun _ : nat =>
    {| receiver_ready := false; ctx_done := false; pick_send := false |} in
  received_heights s = [100; 2147483648; 4294967295]
  /\ sent (fst (epoch_worker bytes Sample.receiving s))
     = [VEpoch 100; VEpoch (-2147483648); VEpoch (-1)]
  /\ sent (fst (epoch_worker bytes Sample.receiving s))
     <> map VEpoch (received_heights s)
  /\ errors (fst (epoch_worker bytes Sample.receiving s)) = []
  /\ epoch_worker bytes idle [Ok {| chainrpc.Height := 100 |}]
     = ([ARecv], BlockedSelect).
Proof.
  cbv zeta. split; [reflexivity|]. split; [reflexivity|].
  split; [discriminate|]. split; reflexivity.
Qed.

Arguments receives {MsgTx} t.
Arguments run_schedule {MsgTx} order w.
Arguments pending {MsgTx} gs.
Arguments started {MsgTx} r.

(** ** The further properties at work *)

(** X1: a spend stream that fails after one event without variant, and a
    block epoch stream that fails after two delivered heights. *)
Lemma stream_error_is_reported_witness :
  spend_worker Sample.decodeTx
    [Ok chainrpc.SpendEvent_nil; Err (ErrStream "EOF");
     Ok (chainrpc.SpendEvent_Spend (Some Sample.spend_details))]
  = ([ARecv; ARecv; ASendErr (ErrStream "EOF"); AWgDone], Exited)
  /\ epoch_worker bytes Sample.receiving
       [Ok {| chainrpc.Height := 100 |}; Ok {| chainrpc.Height := 101 |};
        Err (ErrStream "EOF")]
     = ([ARecv; ASend (VEpoch 100); ARecv; ASend (VEpoch 101);
         ARecv; ASendErr (ErrStream "EOF"); AWgDone], Exited).
Proof.
  destruct (stream_error_is_reported bytes Sample.decodeTx (ErrStream "EOF"))
    as [Hspend [_ Hepoch]].
  split.
  - apply (Hspend [chainrpc.SpendEvent_nil]
                  [Ok (chainrpc.SpendEvent_Spend (Some Sample.spend_details))]).
    repeat constructor.
  - apply (Hepoch Sample.receiving
                  [{| chainrpc.Height := 100 |}; {| chainrpc.Height := 101 |}]
                  []).
    intros i _. reflexivity.
Defined.

(** X2: a confirmation goroutine that returned on a nil event does the
    same when a confirmed event follows on the stream. *)
Lemma stream_extension_witness :
  conf_worker Sample.decodeTx
    ([Ok chainrpc.ConfEvent_nil]
       ++ [Ok (chainrpc.ConfEvent_Conf (Some Sample.conf_details))])
  = conf_worker Sample.decodeTx [Ok chainrpc.ConfEvent_nil].
Proof.
  destruct (stream_extension bytes Sample.decodeTx
              [] []
              [Ok chainrpc.ConfEvent_nil]
              [Ok (chainrpc.ConfEvent_Conf (Some Sample.conf_details))]
              Sample.receiving [] []
              (conf_worker Sample.decodeTx [Ok chainrpc.ConfEvent_nil])
              (conf_worker Sample.decodeTx
                 ([Ok chainrpc.ConfEvent_nil]
                    ++ [Ok (chainrpc.ConfEvent_Conf (Some Sample.conf_details))])))
    as [H _].
  - right; left; reflexivity.
  - apply H. discriminate.
Defined.

(** X3: a reorg and then a confirmed event without details. *)
Lemma panics_exactly_on_nil_details_witness :
  conf_worker Sample.decodeTx
    [Ok chainrpc.ConfEvent_Reorg; Ok (chainrpc.ConfEvent_Conf None)]
  = ([ARecv; ARecv; AWgDone], Panicked)
  /\ spend_worker Sample.decodeTx
       [Ok chainrpc.SpendEvent_Reorg; Ok (chainrpc.SpendEvent_Spend None)]
     = ([ARecv; ARecv; AWgDone], Panicked)
  /\ (exists n rest,
         [Ok chainrpc.ConfEvent_Reorg; Ok (chainrpc.ConfEvent_Conf None)]
         = repeat (Ok chainrpc.ConfEvent_Reorg) n
             ++ Ok (chainrpc.ConfEvent_Conf None) :: rest).
Proof.
  destruct (panics_exactly_on_nil_details bytes Sample.decodeTx)
    as [Hconf [Honly [Hspend _]]].
  split; [exact (Hconf 1%nat [])|]. split.
  - apply (Hspend [chainrpc.SpendEvent_Reorg] None []);
      [repeat constructor | exact I].
  - apply Honly. reflexivity.
Defined.

(** X4: the sample spend event gives exactly one write. *)
Lemma single_shot_outcome_witness :
  (length (sent (fst (spend_worker Sample.decodeTx
                        [Ok (chainrpc.SpendEvent_Spend
                               (Some Sample.spend_details))])))
   + length (errors (fst (spend_worker Sample.decodeTx
                            [Ok (chainrpc.SpendEvent_Spend
                                   (Some Sample.spend_details))])))
   = 1)%nat.
Proof.
  exact (single_shot_outcome bytes Sample.decodeTx
           [Ok (chainrpc.SpendEvent_Spend (Some Sample.spend_details))] []
           (spend_worker Sample.decodeTx
              [Ok (chainrpc.SpendEvent_Spend (Some Sample.spend_details))])
           (or_introl eq_refl)).
Defined.

(** X5: three heights, all taken: three receives, three values, and the
    goroutine waits in Recv. *)
Lemma epoch_worker_no_read_ahead_witness :
  receives (fst (epoch_worker bytes Sample.receiving Sample.epochs_100_102))
  = length (sent (fst (epoch_worker bytes Sample.receiving
                                    Sample.epochs_100_102))).
Proof.
  destruct (epoch_worker_no_read_ahead bytes Sample.receiving
              Sample.epochs_100_102)
    as [_ [_ H]].
  exact (H eq_refl).
Defined.

(** X6: on the three sample heights a caller that never cancels keeps the
    goroutine alive. *)
Lemma epoch_worker_lifetime_witness :
  exits (snd (epoch_worker bytes Sample.receiving Sample.epochs_100_102))
  = false
  /\ errors (fst (epoch_worker bytes Sample.receiving Sample.epochs_100_102))
     = [].
Proof.
  destruct (epoch_worker_lifetime bytes Sample.receiving Sample.epochs_100_102)
    as [_ H].
  exact (H eq_refl (fun _ => eq_refl)).
Defined.


(** X8: a confirmation subscription whose stream holds a nil event: three
    steps of its goroutine and WaitForFinished returns. *)
Lemma shutdown_completes_witness :
  let client :=
    {| rpc_RegisterSpendNtfn := fun _ => Err (ErrStream "unavailable");
       rpc_RegisterConfirmationsNtfn :=
         fun _ => Ok [Ok chainrpc.ConfEvent_nil];
       rpc_RegisterBlockEpochNtfn := Err (ErrStream "unavailable") |} in
  let w := snd (RegisterConfirmationsNtfn Sample.decodeTx client
                  (newChainNotifierClient bytes) None [] 1 0) in
  WaitForFinished w = None
  /\ exists order w',
       length order = 3%nat
       /\ run_schedule order w = Some w'
       /\ WaitForFinished w' = Some tt.
Proof.
  cbv zeta. split; [reflexivity|].
  destruct (shutdown_completes bytes Sample.decodeTx
              (snd (RegisterConfirmationsNtfn Sample.decodeTx
                      {| rpc_RegisterSpendNtfn :=
                           fun _ => Err (ErrStream "unavailable");
                         rpc_RegisterConfirmationsNtfn :=
                           fun _ => Ok [Ok chainrpc.ConfEvent_nil];
                         rpc_RegisterBlockEpochNtfn :=
                           Err (ErrStream "unavailable") |}
                      (newChainNotifierClient bytes) None [] 1 0)))
    as [order [w' [Hlen [Hrun [_ [Hwait _]]]]]].
  - apply reach_conf, reach_new.
  - repeat constructor.
  - exists order, w'. repeat split; assumption.
Defined.

(** X9: the all-zero outpoint at index 0 is registered and reported
    spent. *)
Lemma outpoint_round_trip_witness :
  exists detail,
    sent (fst (spend_worker Sample.decodeTx
                 [Ok (chainrpc.SpendEvent_Spend (Some Sample.spend_details))]))
    = [VSpend detail]
    /\ chainntnfs.SpentOutPoint detail
       = {| wire.Hash := Sample.zero_hash; wire.Index := 0 |}.
Proof.
  exact (outpoint_round_trip bytes Sample.decodeTx
           {| wire.Hash := Sample.zero_hash; wire.Index := 0 |} [] 0
           Sample.spend_details Sample.hash_11 Sample.raw_tx []
           eq_refl eq_refl eq_refl eq_refl).
Defined.

(** X10: a hint of -1 goes out as 4294967295 and converts back to -1; a
    height of 4294967295 comes in as -1 and converts back. *)
Lemma conversions_lose_nothing_witness :
  Int32.int32_of_uint32
    (chainrpc.sr_HeightHint (spend_request None [] (-1))) = -1
  /\ Int32.uint32_of_int32 (-1) = 4294967295.
Proof.
  destruct (conversions_lose_nothing bytes)
    as [Hreq [_ [Hepoch _]]].
  split.
  - apply (Hreq None [] (-1)).
    unfold Int32.is_int32, Int32.half_modulus. lia.
  - apply (Hepoch Sample.receiving {| chainrpc.Height := 4294967295 |} [] (-1)).
    + unfold Int32.is_uint32, Int32.modulus. simpl. lia.
    + reflexivity.
Defined.
